(** * Chat relay server (src/server.js): model and verified properties

    The server keeps two MongoDB collections (Message, Room), a set of
    Socket.IO connections with two connection-local fields, and reacts to
    five transport events and two HTTP routes.  Every handler is modelled
    as a computation over an explicit [World]: the two collections, the
    connections with their broadcast-group subscriptions, the list of
    emissions made so far, the ObjectId generator and an oracle that decides
    which store calls fail.  A handler runs from its first statement to its
    last without another handler in between. *)

From Stdlib Require Import ZArith String.
From stdpp Require Import gmap strings list sorting.

Open Scope Z_scope.

(** ** Schemas (server.js lines 28-39) *)

(** A Message document.  [msg_id] is the ObjectId ([_id]) the driver gives
    a document when it is constructed; instants are milliseconds. *)
Record Message := {
  msg_id : nat;
  msg_roomId : string;
  msg_sender : string;
  msg_text : string;
  msg_timestamp : Z
}.

(** A Room document.  The schema declares [roomId] required and unique, so
    the collection is a finite map from [roomId] to the remaining fields. *)
Record Room := {
  participants : list string;
  createdAt : Z
}.

Global Instance Message_eq_dec : EqDecision Message.
Proof. solve_decision. Defined.

Global Instance Room_eq_dec : EqDecision Room.
Proof. solve_decision. Defined.

(** ** Transport: connections, broadcast groups, emitted events *)

(** The per-connection object: the two fields the join handler sets
    ([socket.roomId], [socket.username], undefined until then) and the
    broadcast groups the connection is subscribed to ([socket.join]). *)
Record Socket := {
  sock_roomId : option string;
  sock_username : option string;
  sock_rooms : gset string
}.

(** Outbound events with their payloads (server.js emits exactly these). *)
Inductive Event :=
| RoomJoined (roomId : string) (ps : list string) (msgs : list Message)
| UserJoined (username : string) (ps : list string)
| NewMessage (id : nat) (roomId sender text : string) (timestamp : Z)
| UserTyping (username : string) (isTyping : bool)
| RoomChatCleared
| UserLeft (username : string) (ps : list string)
| Error (message : string).

(** One call of [emit]: the event and the connections it is delivered to. *)
Record Emission := {
  recipients : gset nat;
  event : Event
}.

(** ** The world *)

Record World := {
  rooms : gmap string Room;
  messages : list Message;
  sockets : gmap nat Socket;
  outbox : list Emission;
  next_id : nat;
  faults : list bool
}.

Definition set_rooms (f : gmap string Room -> gmap string Room) (w : World) : World :=
  {| rooms := f (rooms w); messages := messages w; sockets := sockets w;
     outbox := outbox w; next_id := next_id w; faults := faults w |}.

Definition set_messages (f : list Message -> list Message) (w : World) : World :=
  {| rooms := rooms w; messages := f (messages w); sockets := sockets w;
     outbox := outbox w; next_id := next_id w; faults := faults w |}.

Definition set_sockets (f : gmap nat Socket -> gmap nat Socket) (w : World) : World :=
  {| rooms := rooms w; messages := messages w; sockets := f (sockets w);
     outbox := outbox w; next_id := next_id w; faults := faults w |}.

Definition set_outbox (f : list Emission -> list Emission) (w : World) : World :=
  {| rooms := rooms w; messages := messages w; sockets := sockets w;
     outbox := f (outbox w); next_id := next_id w; faults := faults w |}.

Definition set_next_id (f : nat -> nat) (w : World) : World :=
  {| rooms := rooms w; messages := messages w; sockets := sockets w;
     outbox := outbox w; next_id := f (next_id w); faults := faults w |}.

Definition set_faults (fs : list bool) (w : World) : World :=
  {| rooms := rooms w; messages := messages w; sockets := sockets w;
     outbox := outbox w; next_id := next_id w; faults := fs |}.

(** ** Computations that may throw *)

Inductive Result (A : Type) :=
| Ok (a : A)
| Throw.
Arguments Ok {A} a.
Arguments Throw {A}.

Definition M (A : Type) : Type := World -> Result A * World.

Global Instance M_ret : MRet M := fun A a w => (Ok a, w).

Global Instance M_bind : MBind M := fun A B f m w =>
  match m w with
  | (Ok a, w') => f a w'
  | (Throw, w') => (Throw, w')
  end.

Definition throw {A} : M A := fun w => (Throw, w).

(** [try { body } catch (error) { handler }] *)
Definition try_catch (body handler : M unit) : M unit := fun w =>
  match body w with
  | (Ok _, w') => (Ok tt, w')
  | (Throw, w') => handler w'
  end.

(** An event handler is its try/catch run for its effect on the world. *)
Definition run (m : M unit) (w : World) : World := snd (m w).

(** ** Store calls *)

(** Every awaited store call first asks the oracle: [true] at the head of
    [faults] makes the call throw without touching the collections. *)
Definition store_call {A} (op : M A) : M A := fun w =>
  match faults w with
  | true :: fs => (Throw, set_faults fs w)
  | false :: fs => op (set_faults fs w)
  | [] => op w
  end.

(** The required-string validator rejects the empty string. *)
Definition required (s : string) : bool := negb (String.eqb s "").

Definition Room_findOne (roomId : string) : M (option Room) :=
  store_call (fun w => (Ok (rooms w !! roomId), w)).

(** [room.save()]: validation of the required [roomId], then the write. *)
Definition Room_save (roomId : string) (room : Room) : M unit :=
  if required roomId
  then store_call (fun w => (Ok tt, set_rooms (insert roomId room) w))
  else throw.

Definition Room_deleteOne (roomId : string) : M unit :=
  store_call (fun w => (Ok tt, set_rooms (delete roomId) w)).

(** [new Message({...})]: the document gets a fresh [_id]. *)
Definition new_Message (roomId sender text : string) (timestamp : Z) : M Message :=
  fun w => (Ok {| msg_id := next_id w; msg_roomId := roomId; msg_sender := sender;
                  msg_text := text; msg_timestamp := timestamp |},
            set_next_id S w).

Definition Message_valid (m : Message) : bool :=
  required (msg_roomId m) && required (msg_sender m) && required (msg_text m).

(** [message.save()] *)
Definition Message_save (m : Message) : M unit :=
  if Message_valid m
  then store_call (fun w => (Ok tt, set_messages (fun l => l ++ [m]) w))
  else throw.

(** [Message.deleteMany({ roomId })] *)
Definition Message_deleteMany (roomId : string) : M unit :=
  store_call (fun w =>
    (Ok tt, set_messages (filter (fun m => msg_roomId m ≠ roomId)) w)).

(** ** The query builder ([Message.find(...).sort(...).limit(...)])

    [find], [sort] and [limit] on lines 79-82 and 184-185 are methods of
    the driver's query object.  A query is built first and executed once,
    when it is awaited.  [sort] does not sort anything: it records the
    direction under the path's key in the query's sort options, and a path
    that already has a direction gets the new one.  [limit] records the
    bound.  On execution the store filters, orders by the recorded sort
    options and then applies the bound, whatever the order of the builder
    calls was.  Documents that are equal on all sort keys come back in an
    order the store does not promise; the model keeps collection order. *)
Record Query := {
  q_roomId : string;
  q_sort : list (string * Z);
  q_limit : option nat
}.

Definition Message_find (roomId : string) : Query :=
  {| q_roomId := roomId; q_sort := []; q_limit := None |}.

(** Assignment [options.sort[path] = dir] on an object with ordered keys. *)
Fixpoint set_key (path : string) (dir : Z) (o : list (string * Z)) : list (string * Z) :=
  match o with
  | [] => [(path, dir)]
  | (p, d) :: o' =>
      if decide (p = path) then (p, dir) :: o' else (p, d) :: set_key path dir o'
  end.

Definition sort (spec : list (string * Z)) (q : Query) : Query :=
  {| q_roomId := q_roomId q;
     q_sort := fold_left (fun o kv => set_key kv.1 kv.2 o) spec (q_sort q);
     q_limit := q_limit q |}.

Definition limit (n : nat) (q : Query) : Query :=
  {| q_roomId := q_roomId q; q_sort := q_sort q; q_limit := Some n |}.

(** Comparison of two documents on one path of the Message schema. *)
Definition cmp_path (path : string) (a b : Message) : comparison :=
  if decide (path = "timestamp") then Z.compare (msg_timestamp a) (msg_timestamp b)
  else if decide (path = "_id") then Nat.compare (msg_id a) (msg_id b)
  else if decide (path = "roomId") then String.compare (msg_roomId a) (msg_roomId b)
  else if decide (path = "sender") then String.compare (msg_sender a) (msg_sender b)
  else if decide (path = "text") then String.compare (msg_text a) (msg_text b)
  else Eq.

Fixpoint cmp_sort (o : list (string * Z)) (a b : Message) : comparison :=
  match o with
  | [] => Eq
  | (p, d) :: o' =>
      match (if d <? 0 then CompOpp (cmp_path p a b) else cmp_path p a b) with
      | Eq => cmp_sort o' a b
      | c => c
      end
  end.

Definition sort_le (o : list (string * Z)) (a b : Message) : Prop :=
  cmp_sort o a b ≠ Gt.

Global Instance sort_le_dec o a b : Decision (sort_le o a b).
Proof. unfold sort_le. apply _. Defined.

Definition apply_sort (o : list (string * Z)) (l : list Message) : list Message :=
  match o with
  | [] => l
  | _ => merge_sort (sort_le o) l
  end.

(** A bound of 0 means no bound. *)
Definition apply_limit (n : option nat) (l : list Message) : list Message :=
  match n with
  | Some (S k) => take (S k) l
  | _ => l
  end.

Definition exec (q : Query) (coll : list Message) : list Message :=
  apply_limit (q_limit q)
    (apply_sort (q_sort q)
       (filter (fun m => msg_roomId m = q_roomId q) coll)).

(** Awaiting the query. *)
Definition Query_exec (q : Query) : M (list Message) :=
  store_call (fun w => (Ok (exec q (messages w)), w)).

(** ** Emitting *)

(** The connections subscribed to a broadcast group. *)
Definition members (w : World) (roomId : string) : gset nat :=
  dom (filter (fun kv => roomId ∈ sock_rooms kv.2) (sockets w)).

Definition emit_to (to : gset nat) (e : Event) : M unit := fun w =>
  (Ok tt, set_outbox (fun o => o ++ [{| recipients := to; event := e |}]) w).

(** [socket.emit(e)]: to the connection itself. *)
Definition socket_emit (sid : nat) (e : Event) : M unit :=
  emit_to {[sid]} e.

(** [io.to(roomId).emit(e)]: to every subscriber of the group. *)
Definition io_to_emit (roomId : string) (e : Event) : M unit := fun w =>
  emit_to (members w roomId) e w.

(** [socket.to(roomId).emit(e)]: to every subscriber but the connection. *)
Definition socket_to_emit (sid : nat) (roomId : string) (e : Event) : M unit := fun w =>
  emit_to (members w roomId ∖ {[sid]}) e w.

(** [socket.join(roomId)] *)
Definition socket_join (sid : nat) (roomId : string) : M unit := fun w =>
  (Ok tt, set_sockets (alter (fun s =>
     {| sock_roomId := sock_roomId s; sock_username := sock_username s;
        sock_rooms := {[roomId]} ∪ sock_rooms s |}) sid) w).

(** [socket.roomId = roomId; socket.username = username] *)
Definition socket_bind (sid : nat) (roomId username : string) : M unit := fun w =>
  (Ok tt, set_sockets (alter (fun s =>
     {| sock_roomId := Some roomId; sock_username := Some username;
        sock_rooms := sock_rooms s |}) sid) w).

(** The events a connection has received, oldest first. *)
Definition delivered (w : World) (sid : nat) : list Event :=
  event <$> filter (fun e => sid ∈ recipients e) (outbox w).

(** ** Handlers (server.js lines 45-165) *)

(** A new connection: no field set, no group joined. *)
Definition on_connection (sid : nat) (w : World) : World :=
  set_sockets (insert sid {| sock_roomId := None; sock_username := None;
                             sock_rooms := ∅ |}) w.

(** clear-room-chat, lines 49-57 *)
Definition clear_room_chat_try (roomId : string) : M unit :=
  Message_deleteMany roomId ;;
  io_to_emit roomId RoomChatCleared.

Definition on_clear_room_chat (sid : nat) (roomId : string) : World -> World :=
  run (try_catch (clear_room_chat_try roomId)
                 (socket_emit sid (Error "Failed to clear chat"))).

(** The query of the join handler, lines 79-82. *)
Definition recent_query (roomId : string) : Query :=
  sort [("timestamp", 1)] (limit 50 (sort [("timestamp", -1)] (Message_find roomId))).

(** join-room, lines 59-102.  [now] is the clock read when a Room document
    is constructed ([createdAt] defaults to [Date.now]). *)
Definition join_room_try (now : Z) (sid : nat) (roomId username : string) : M unit :=
  found ← Room_findOne roomId;
  room ← match found with
         | None =>
             let room := {| participants := [username]; createdAt := now |} in
             Room_save roomId room ;; mret room
         | Some room =>
             if bool_decide (username ∈ participants room)
             then mret room
             else
               let room := {| participants := participants room ++ [username];
                              createdAt := createdAt room |} in
               Room_save roomId room ;; mret room
         end;
  socket_join sid roomId ;;
  socket_bind sid roomId username ;;
  msgs ← Query_exec (recent_query roomId);
  socket_emit sid (RoomJoined roomId (participants room) msgs) ;;
  socket_to_emit sid roomId (UserJoined username (participants room)).

Definition on_join_room (now : Z) (sid : nat) (roomId username : string) : World -> World :=
  run (try_catch (join_room_try now sid roomId username)
                 (socket_emit sid (Error "Failed to join room"))).

(** send-message, lines 105-132.  [now] is [new Date()]. *)
Definition send_message_try (now : Z) (roomId sender text : string) : M unit :=
  message ← new_Message roomId sender text now;
  Message_save message ;;
  io_to_emit roomId
    (NewMessage (msg_id message) roomId sender text (msg_timestamp message)).

Definition on_send_message (now : Z) (sid : nat) (roomId sender text : string)
  : World -> World :=
  run (try_catch (send_message_try now roomId sender text)
                 (socket_emit sid (Error "Failed to send message"))).

(** typing, lines 135-140 *)
Definition on_typing (sid : nat) (roomId username : string) (isTyping : bool)
  : World -> World :=
  run (socket_to_emit sid roomId (UserTyping username isTyping)).

(** Truthiness of a field that is undefined or a string: the empty string
    is falsy. *)
Definition truthy (v : option string) : bool :=
  match v with
  | Some s => negb (String.eqb s "")
  | None => false
  end.

(** The try block of the disconnect handler, lines 146-158. *)
Definition disconnect_try (sid : nat) (roomId username : string) : M unit :=
  found ← Room_findOne roomId;
  match found with
  | Some room =>
      let ps := filter (fun p => p ≠ username) (participants room) in
      if (length ps =? 0)%nat
      then Room_deleteOne roomId
      else
        Room_save roomId {| participants := ps; createdAt := createdAt room |} ;;
        socket_to_emit sid roomId (UserLeft username ps)
  | None => mret tt
  end.

(** disconnect, lines 143-164.  The transport has removed the connection
    from every broadcast group before the handler runs; the handler still
    reads the two fields of the connection object. *)
Definition on_disconnect (sid : nat) (w : World) : World :=
  let sock := sockets w !! sid in
  let roomId := sock ≫= sock_roomId in
  let username := sock ≫= sock_username in
  let w := set_sockets (delete sid) w in
  match roomId, username with
  | Some r, Some u =>
      if truthy roomId && truthy username
      then run (try_catch (disconnect_try sid r u) (mret tt)) w
      else w
  | _, _ => w
  end.

(** ** REST routes (server.js lines 170-190) *)

Inductive Response :=
| RoomJson (roomId : string) (room : Room)
| MessagesJson (msgs : list Message)
| Status (code : nat) (error : string).

(** GET /api/rooms/:roomId *)
Definition get_room (roomId : string) (w : World) : Response * World :=
  match Room_findOne roomId w with
  | (Ok (Some room), w') => (RoomJson roomId room, w')
  | (Ok None, w') => (Status 404 "Room not found", w')
  | (Throw, w') => (Status 500 "Server error", w')
  end.

(** GET /api/rooms/:roomId/messages *)
Definition get_room_messages (roomId : string) (w : World) : Response * World :=
  match Query_exec (sort [("timestamp", 1)] (Message_find roomId)) w with
  | (Ok msgs, w') => (MessagesJson msgs, w')
  | (Throw, w') => (Status 500 "Server error", w')
  end.

(** The world before any connection. *)
Definition initial : World :=
  {| rooms := ∅; messages := []; sockets := ∅; outbox := [];
     next_id := 0; faults := [] |}.

(** ** The server as a transition system *)

(** What can happen next: a client connects, a connected client sends one
    of the four events or goes away, or the environment decides which of
    the coming store calls are going to fail. *)
Inductive Input :=
| Connection (sid : nat)
| JoinRoom (now : Z) (sid : nat) (roomId username : string)
| SendMessage (now : Z) (sid : nat) (roomId sender text : string)
| Typing (sid : nat) (roomId username : string) (isTyping : bool)
| ClearRoomChat (sid : nat) (roomId : string)
| Disconnect (sid : nat)
| Outage (fs : list bool).

Definition connected (w : World) (sid : nat) : bool :=
  bool_decide (is_Some (sockets w !! sid)).

(** Handlers are registered per connection (line 45): an event of a
    connection that does not exist reaches no handler. *)
Definition step (i : Input) (w : World) : World :=
  match i with
  | Connection sid => if connected w sid then w else on_connection sid w
  | JoinRoom now sid roomId username =>
      if connected w sid then on_join_room now sid roomId username w else w
  | SendMessage now sid roomId sender text =>
      if connected w sid then on_send_message now sid roomId sender text w else w
  | Typing sid roomId username isTyping =>
      if connected w sid then on_typing sid roomId username isTyping w else w
  | ClearRoomChat sid roomId =>
      if connected w sid then on_clear_room_chat sid roomId w else w
  | Disconnect sid => if connected w sid then on_disconnect sid w else w
  | Outage fs => set_faults fs w
  end.

Inductive reachable : World -> Prop :=
| reachable_initial : reachable initial
| reachable_step i w : reachable w -> reachable (step i w).

(** ** Derived notions used in the statements *)

(** Ascending timestamp order, as a relation on documents. *)
Definition ts_le (a b : Message) : Prop := msg_timestamp a <= msg_timestamp b.

(** The documents of one room, in collection order. *)
Definition in_room (roomId : string) (coll : list Message) : list Message :=
  filter (fun m => msg_roomId m = roomId) coll.

(** What [Message.find({ roomId }).sort({ timestamp: 1 })] returns. *)
Definition ascending (roomId : string) (coll : list Message) : list Message :=
  exec (sort [("timestamp", 1)] (Message_find roomId)) coll.

(** No store call is going to fail. *)
Definition healthy (w : World) : Prop := Forall (eq false) (faults w).

(** One join-room call: the clock, the calling connection, the username. *)
Record Join := {
  j_now : Z;
  j_sid : nat;
  j_username : string
}.

(** The join-room call completes its try block in world [w]. *)
Definition join_succeeds (roomId : string) (j : Join) (w : World) : Prop :=
  (join_room_try (j_now j) (j_sid j) roomId (j_username j) w).1 = Ok tt.

(** A sequence of join-room calls on one room, each of them successful,
    leading from one world to another. *)
Inductive joins (roomId : string) : list Join -> World -> World -> Prop :=
| joins_nil w : joins roomId [] w w
| joins_cons j js w w' :
    join_succeeds roomId j w ->
    joins roomId js (on_join_room (j_now j) (j_sid j) roomId (j_username j) w) w' ->
    joins roomId (j :: js) w w'.

(** [if (!ps.includes(u)) ps.push(u)] on the participant list alone. *)
Definition add_participant (ps : list string) (u : string) : list string :=
  if bool_decide (u ∈ ps) then ps else ps ++ [u].

(** The reply the comment on line 78 and the specification describe: the
    room's documents ordered newest first, the first 50 of those, ordered
    oldest first again. *)
Definition most_recent_50 (roomId : string) (coll : list Message) : list Message :=
  merge_sort (sort_le [("timestamp", 1)])
    (take 50 (merge_sort (sort_le [("timestamp", -1)]) (in_room roomId coll))).

(** A room with [n] documents whose timestamps are 1, 2, ..., n, as [n]
    send-message calls at those clock readings leave it. *)
Definition backlog (roomId : string) (n : nat) : list Message :=
  (fun i => {| msg_id := pred i; msg_roomId := roomId; msg_sender := "alice";
               msg_text := "hi"; msg_timestamp := Z.of_nat i |}) <$> seq 1 n.

(** [f] is a view of the world that consuming the oracle does not change. *)
Definition oracle_free {B} (f : World -> B) : Prop :=
  forall fs w, f (set_faults fs w) = f w.

(** The computation [m] leaves the view [f] of the world as it was,
    whether it returns or throws. *)
Definition preserves {A B} (f : World -> B) (m : M A) : Prop :=
  forall w, f (m w).2 = f w.

(** Every Room record has a non-empty roomId and a non-empty participant
    list without repetition. *)
Definition rooms_wf (rs : gmap string Room) : Prop :=
  forall r room, rs !! r = Some room ->
    r ≠ ""%string /\ participants room ≠ [] /\ NoDup (participants room).

(** A connection is never bound to the empty roomId. *)
Definition sockets_wf (ss : gmap nat Socket) : Prop :=
  forall sid s, ss !! sid = Some s -> sock_roomId s ≠ Some ""%string.

Definition wf (w : World) : Prop := rooms_wf (rooms w) /\ sockets_wf (sockets w).

(** [triple P m Q E]: from a world in [P] the computation [m] either
    returns a value and a world in [Q] or throws in a world in [E]. *)
Definition triple {A} (P : World -> Prop) (m : M A)
    (Q : A -> World -> Prop) (E : World -> Prop) : Prop :=
  forall w, P w ->
    match m w with
    | (Ok a, w') => Q a w'
    | (Throw, w') => E w'
    end.

(** The inputs whose handlers write to the Message collection. *)
Definition writes_messages (i : Input) : bool :=
  match i with
  | SendMessage _ _ _ _ _ | ClearRoomChat _ _ => true
  | _ => false
  end.

(** The inputs whose handlers write to the Room collection. *)
Definition writes_rooms (i : Input) : bool :=
  match i with
  | JoinRoom _ _ _ _ | Disconnect _ => true
  | _ => false
  end.

(** Stored documents passed validation, carry ids the generator has
    already handed out, and no two of them share an id. *)
Definition messages_wf (w : World) : Prop :=
  (forall m, m ∈ messages w ->
     (msg_id m < next_id w)%nat /\ Message_valid m = true)
  /\ NoDup (msg_id <$> messages w).

(** An error event goes to one connection only. *)
Definition errors_private (o : list Emission) : Prop :=
  forall e message, e ∈ o -> event e = Error message ->
    exists sid, recipients e = {[sid]}.

(** Running a list of inputs, first to last. *)
Definition steps (inputs : list Input) (w : World) : World :=
  foldl (fun w i => step i w) w inputs.

(** The connection whose event an input is, if it is one. *)
Definition sender_of (i : Input) : option nat :=
  match i with
  | Connection sid | JoinRoom _ sid _ _ | SendMessage _ sid _ _ _
  | Typing sid _ _ _ | ClearRoomChat sid _ | Disconnect sid => Some sid
  | Outage _ => None
  end.

(** The Room record an input may write: the joined room for join-room,
    the room the connection is bound to for disconnect, none otherwise. *)
Definition room_of (i : Input) (w : World) : option string :=
  match i with
  | JoinRoom _ _ roomId _ => Some roomId
  | Disconnect sid => sockets w !! sid ≫= sock_roomId
  | _ => None
  end.

(** * Properties *)

(** ** The query builder *)

Section query.

Implicit Types (q : Query) (coll : list Message) (a b : Message).

Lemma sort_le_asc a b : sort_le [("timestamp", 1)] a b <-> ts_le a b.
Proof.
  unfold sort_le, ts_le, cmp_sort, cmp_path. simpl.
  destruct (Z.compare_spec (msg_timestamp a) (msg_timestamp b));
    split; intros; try lia; congruence.
Qed.

#[local] Instance sort_le_asc_total : Total (sort_le [("timestamp", 1)]).
Proof. intros a b. rewrite !sort_le_asc. unfold ts_le. lia. Qed.

#[local] Instance sort_le_asc_trans : Transitive (sort_le [("timestamp", 1)]).
Proof. intros a b c. rewrite !sort_le_asc. unfold ts_le. lia. Qed.

Lemma StronglySorted_impl {A} (R R' : relation A) (l : list A) :
  (forall x y, R x y -> R' x y) -> StronglySorted R l -> StronglySorted R' l.
Proof.
  intros HR. induction 1 as [|x l Hl IH Hx]; constructor; [done|].
  eapply Forall_impl; [exact Hx | auto].
Qed.

(** The second [sort] call overwrites the direction the first recorded. *)
Lemma recent_query_options roomId :
  recent_query roomId =
  {| q_roomId := roomId; q_sort := [("timestamp", 1)]; q_limit := Some 50%nat |}.
Proof. reflexivity. Qed.

Lemma ascending_unfold roomId coll :
  ascending roomId coll = merge_sort (sort_le [("timestamp", 1)]) (in_room roomId coll).
Proof. reflexivity. Qed.

Lemma ascending_perm roomId coll : ascending roomId coll ≡ₚ in_room roomId coll.
Proof. rewrite ascending_unfold. apply merge_sort_Permutation. Qed.

Lemma ascending_sorted roomId coll : StronglySorted ts_le (ascending roomId coll).
Proof.
  rewrite ascending_unfold.
  apply (StronglySorted_impl (sort_le [("timestamp", 1)])).
  - intros a b. apply sort_le_asc.
  - apply StronglySorted_merge_sort; apply _.
Qed.

(** What the join handler's query returns: the first 50 documents of the
    ascending order, that is the 50 oldest of the room. *)
Lemma recent_query_exec roomId coll :
  exec (recent_query roomId) coll = take 50 (ascending roomId coll).
Proof. reflexivity. Qed.

Lemma recent_query_length roomId coll :
  length (exec (recent_query roomId) coll)
  = Nat.min 50 (length (in_room roomId coll)).
Proof.
  rewrite recent_query_exec, length_take.
  by rewrite (Permutation_length (ascending_perm roomId coll)).
Qed.

Lemma recent_query_sorted roomId coll :
  StronglySorted ts_le (exec (recent_query roomId) coll).
Proof.
  rewrite recent_query_exec.
  generalize (ascending_sorted roomId coll).
  rewrite <- (take_drop 50 (ascending roomId coll)) at 1.
  apply StronglySorted_app_1_l.
Qed.

End query.

(** ** Frame rules: which part of the world a computation leaves alone *)

Section frames.

Context {B : Type} (f : World -> B).

Lemma preserves_ret {A} (a : A) : preserves f (mret a).
Proof. by intros w. Qed.

Lemma preserves_throw {A} : preserves f (@throw A).
Proof. by intros w. Qed.

Lemma preserves_bind {A C} (m : M A) (k : A -> M C) :
  preserves f m -> (forall a, preserves f (k a)) -> preserves f (m ≫= k).
Proof.
  intros Hm Hk w. unfold mbind, M_bind. specialize (Hm w).
  destruct (m w) as [[a|] w1]; simpl in *; [|done].
  by rewrite Hk.
Qed.

Lemma preserves_try_catch (body handler : M unit) :
  preserves f body -> preserves f handler -> preserves f (try_catch body handler).
Proof.
  intros Hb Hh w. unfold try_catch. specialize (Hb w).
  destruct (body w) as [[[]|] w1]; simpl in *; [done|].
  by rewrite Hh.
Qed.

Lemma preserves_store_call {A} (op : M A) :
  oracle_free f -> preserves f op -> preserves f (store_call op).
Proof.
  intros Hf Hop w. unfold store_call.
  destruct (faults w) as [|[] fs]; simpl; rewrite ?Hop, ?Hf; done.
Qed.

Lemma preserves_run (m : M unit) w : preserves f m -> f (run m w) = f w.
Proof. intros Hm. apply Hm. Qed.

End frames.

Lemma rooms_oracle_free : oracle_free rooms.
Proof. by intros fs w. Qed.

Lemma messages_oracle_free : oracle_free messages.
Proof. by intros fs w. Qed.

Lemma outbox_oracle_free : oracle_free outbox.
Proof. by intros fs w. Qed.

Lemma sockets_oracle_free : oracle_free sockets.
Proof. by intros fs w. Qed.

Create HintDb frame discriminated.

#[local] Hint Resolve rooms_oracle_free messages_oracle_free outbox_oracle_free
  sockets_oracle_free : frame.
#[local] Hint Resolve preserves_ret preserves_throw preserves_bind preserves_try_catch
  preserves_store_call : frame.

(** Leaves: a primitive that rebuilds the world with one setter. *)
Ltac frame_leaf := let w := fresh "w" in intros w; reflexivity.

Ltac frame :=
  repeat first
    [ apply preserves_bind; [|intros ?]
    | apply preserves_try_catch
    | apply preserves_store_call; [by auto with frame|]
    | apply preserves_ret
    | apply preserves_throw
    | frame_leaf
    | case_match ].

(** *** The store reads *)

Lemma Room_findOne_preserves {B} (f : World -> B) roomId :
  oracle_free f -> preserves f (Room_findOne roomId).
Proof. intros. apply preserves_store_call; [done|]. frame_leaf. Qed.

Lemma Query_exec_preserves {B} (f : World -> B) q :
  oracle_free f -> preserves f (Query_exec q).
Proof. intros. apply preserves_store_call; [done|]. frame_leaf. Qed.

(** *** Writes to the Message collection leave the Room collection alone *)

Lemma Message_deleteMany_rooms roomId : preserves rooms (Message_deleteMany roomId).
Proof. unfold Message_deleteMany. frame. Qed.

Lemma Message_save_rooms m : preserves rooms (Message_save m).
Proof. unfold Message_save. frame. Qed.

(** *** Writes to the Room collection leave the Message collection alone *)

Lemma Room_save_messages roomId room : preserves messages (Room_save roomId room).
Proof. unfold Room_save. frame. Qed.

Lemma Room_deleteOne_messages roomId : preserves messages (Room_deleteOne roomId).
Proof. unfold Room_deleteOne. frame. Qed.

(** *** Emitting touches the outbox only *)

Lemma emit_to_rooms to e : preserves rooms (emit_to to e).
Proof. frame_leaf. Qed.

Lemma emit_to_messages to e : preserves messages (emit_to to e).
Proof. frame_leaf. Qed.

Lemma io_to_emit_rooms roomId e : preserves rooms (io_to_emit roomId e).
Proof. frame_leaf. Qed.

Lemma io_to_emit_messages roomId e : preserves messages (io_to_emit roomId e).
Proof. frame_leaf. Qed.

Lemma socket_to_emit_rooms sid roomId e : preserves rooms (socket_to_emit sid roomId e).
Proof. frame_leaf. Qed.

Lemma socket_to_emit_messages sid roomId e :
  preserves messages (socket_to_emit sid roomId e).
Proof. frame_leaf. Qed.

Lemma socket_join_rooms sid roomId : preserves rooms (socket_join sid roomId).
Proof. frame_leaf. Qed.

Lemma socket_bind_rooms sid roomId username :
  preserves rooms (socket_bind sid roomId username).
Proof. frame_leaf. Qed.

#[local] Hint Resolve Room_findOne_preserves Query_exec_preserves
  Message_deleteMany_rooms Message_save_rooms Room_save_messages
  Room_deleteOne_messages emit_to_rooms emit_to_messages io_to_emit_rooms
  io_to_emit_messages socket_to_emit_rooms socket_to_emit_messages
  socket_join_rooms socket_bind_rooms : frame.

(** ** Running a computation step by step *)

Lemma set_faults_id w : set_faults (faults w) w = w.
Proof. by destruct w. Qed.

Lemma bind_ok {A C} (m : M A) (k : A -> M C) w c w' :
  (m ≫= k) w = (Ok c, w') ->
  exists a w1, m w = (Ok a, w1) /\ k a w1 = (Ok c, w').
Proof.
  unfold mbind, M_bind. destruct (m w) as [[a|] w1]; [|done].
  intros Hk. by exists a, w1.
Qed.

Lemma bind_run {A C} (m : M A) (k : A -> M C) w a w1 :
  m w = (Ok a, w1) -> (m ≫= k) w = k a w1.
Proof. unfold mbind, M_bind. by intros ->. Qed.

(** A store call either throws, leaving all but the oracle as it was, or
    runs the operation on a world that differs in the oracle only. *)
Lemma store_call_cases {A} (op : M A) w :
  exists fs, store_call op w = (Throw, set_faults fs w)
             \/ store_call op w = op (set_faults fs w).
Proof.
  unfold store_call. destruct (faults w) as [|[] fs] eqn:Hf.
  - exists (faults w). right. by rewrite set_faults_id.
  - exists fs. by left.
  - exists fs. by right.
Qed.

Lemma store_call_healthy {A} (op : M A) w :
  healthy w ->
  exists fs, Forall (eq false) fs /\ store_call op w = op (set_faults fs w).
Proof.
  unfold healthy, store_call. intros Hw.
  destruct (faults w) as [|[] fs] eqn:Hf.
  - exists (faults w). rewrite set_faults_id. by rewrite Hf.
  - by inversion Hw.
  - exists fs. split; [by inversion Hw | done].
Qed.

Lemma store_call_ok {A} (op : M A) w a w' :
  store_call op w = (Ok a, w') -> exists fs, op (set_faults fs w) = (Ok a, w').
Proof.
  destruct (store_call_cases op w) as [fs [H|H]]; rewrite H; [done|].
  intros Hop. by exists fs.
Qed.

(** ** clear-room-chat *)

(** C10: clear-room-chat, whether its store call succeeds or throws, leaves
    the whole Room collection as it was: every Room record, the target
    room's included, keeps its participant list and its createdAt. *)
Theorem clear_room_chat_keeps_rooms (w : World) (sid : nat) (roomId : string) :
  rooms (on_clear_room_chat sid roomId w) = rooms w.
Proof.
  unfold on_clear_room_chat. apply preserves_run.
  apply preserves_try_catch; [|apply emit_to_rooms].
  unfold clear_room_chat_try. apply preserves_bind; auto with frame.
Qed.

Lemma clear_room_chat_run w roomId w' :
  clear_room_chat_try roomId w = (Ok tt, w') ->
  messages w' = filter (fun m => msg_roomId m ≠ roomId) (messages w)
  /\ outbox w' = outbox w ++ [{| recipients := members w roomId;
                                 event := RoomChatCleared |}].
Proof.
  unfold clear_room_chat_try. intros H.
  apply bind_ok in H as ([] & w1 & Hdel & Hemit).
  unfold Message_deleteMany in Hdel.
  destruct (store_call_cases
    (fun w => (Ok tt, set_messages (filter (fun m => msg_roomId m ≠ roomId)) w)) w)
    as [fs [Hc|Hc]]; rewrite Hc in Hdel; [done|].
  injection Hdel as <-. injection Hemit as <-. done.
Qed.

(** C5: when clear-room-chat succeeds, the Message collection afterwards is
    the old one without the documents of that room: none of the room is
    left, a document of another room is there exactly when it was before,
    each other room keeps its documents in the same order, and one
    room-chat-cleared emission goes to all subscribers of the room's
    broadcast group, the caller not excepted. *)
Theorem clear_room_chat_deletes_room_messages
    (w : World) (sid : nat) (roomId : string) :
  (clear_room_chat_try roomId w).1 = Ok tt ->
  let w' := on_clear_room_chat sid roomId w in
  (forall m, m ∈ messages w' -> msg_roomId m ≠ roomId)
  /\ (forall m, msg_roomId m ≠ roomId -> m ∈ messages w' <-> m ∈ messages w)
  /\ (forall r, r ≠ roomId -> in_room r (messages w') = in_room r (messages w))
  /\ outbox w' = outbox w ++ [{| recipients := members w roomId;
                                 event := RoomChatCleared |}]
  /\ (sid ∈ members w roomId ->
      delivered w' sid = delivered w sid ++ [RoomChatCleared]).
Proof.
  intros Hok w'. subst w'. unfold on_clear_room_chat, run, try_catch.
  destruct (clear_room_chat_try roomId w) as [[[]|] w1] eqn:Htry; [|done].
  simpl. clear Hok. apply clear_room_chat_run in Htry as [Hm Ho].
  rewrite Hm. repeat split.
  - intros m Hin. by apply list_elem_of_filter in Hin as [? _].
  - intros Hin. by apply list_elem_of_filter in Hin as [_ ?].
  - intros Hin. by apply list_elem_of_filter.
  - intros r Hr. unfold in_room. rewrite list_filter_filter.
    apply list_filter_iff. intros m.
    split; [by intros [? _] | intros Heq; split; [done | congruence]].
  - done.
  - intros Hin. unfold delivered. rewrite Ho, filter_app, fmap_app.
    rewrite filter_cons, filter_nil. simpl. by rewrite decide_True.
Qed.

Lemma clear_room_chat_deletes_room_messages_witness :
  let w := on_send_message 2 1 "r2" "alice" "yo"
             (on_send_message 1 1 "r1" "alice" "hi"
                (on_join_room 0 1 "r1" "alice" (on_connection 1 initial))) in
  let w' := on_clear_room_chat 1 "r1" w in
  in_room "r1" (messages w) ≠ []
  /\ in_room "r2" (messages w') = in_room "r2" (messages w)
  /\ (forall m, m ∈ messages w' -> msg_roomId m ≠ "r1"%string)
  /\ delivered w' 1 = delivered w 1 ++ [RoomChatCleared].
Proof.
  intros w w'.
  destruct (clear_room_chat_deletes_room_messages w 1 "r1")
    as (Hnone & _ & Hother & _ & Hcaller).
  - vm_compute. reflexivity.
  - split; [vm_compute; discriminate|]. split; [|split].
    + apply Hother. discriminate.
    + exact Hnone.
    + apply Hcaller. apply (bool_decide_unpack _). vm_compute. exact I.
Defined.

(** ** send-message *)

(** The try block of send-message completes exactly when the document
    passes validation and the store accepts the write. *)
Lemma send_message_succeeds_iff w now roomId sender text :
  (send_message_try now roomId sender text w).1 = Ok tt
  <-> (required roomId && required sender && required text = true
       /\ head (faults w) ≠ Some true).
Proof.
  unfold send_message_try, mbind, M_bind, new_Message, Message_save,
    Message_valid, store_call, io_to_emit, emit_to. simpl.
  destruct (required roomId && required sender && required text); simpl.
  - destruct (faults w) as [|[] fs]; simpl; split; try done.
    + by intros [_ ?].
  - split; [done | by intros [? _]].
Qed.

(** C6: send-message has two outcomes, decided by the store.  When the
    store accepts the write (the document passes the schema's validation
    and the store call does not fail), the Message collection gains one
    document that carries the server's clock reading as its timestamp, and
    one new-message emission with the document's id, roomId, sender, text
    and timestamp goes to every subscriber of the room's broadcast group,
    the sender not excepted.  When the store refuses the write (validation
    fails or the store call fails), the Message collection is as before
    and the only emission is an error event to the sender alone. *)
Theorem send_message_outcomes
    (w : World) (now : Z) (sid : nat) (roomId sender text : string) :
  let w' := on_send_message now sid roomId sender text w in
  let m := {| msg_id := next_id w; msg_roomId := roomId; msg_sender := sender;
              msg_text := text; msg_timestamp := now |} in
  let e := NewMessage (next_id w) roomId sender text now in
  let accepted :=
    required roomId && required sender && required text = true
    /\ head (faults w) ≠ Some true in
  (accepted ->
     messages w' = messages w ++ [m]
     /\ outbox w' = outbox w ++ [{| recipients := members w roomId; event := e |}]
     /\ (sid ∈ members w roomId -> delivered w' sid = delivered w sid ++ [e]))
  /\ (~ accepted ->
      messages w' = messages w
      /\ outbox w' = outbox w ++ [{| recipients := {[sid]};
                                     event := Error "Failed to send message" |}]
      /\ (forall e', e' ∈ outbox w' -> e' ∉ outbox w ->
          recipients e' = {[sid]} /\ event e' = Error "Failed to send message")).
Proof.
  unfold on_send_message, run, try_catch, send_message_try, mbind, M_bind,
    new_Message, Message_save, Message_valid, store_call, io_to_emit, emit_to,
    socket_emit, emit_to, delivered.
  simpl.
  destruct (required roomId && required sender && required text); simpl;
    [destruct (faults w) as [|[] fs]; simpl|].
  all: split; [intros [Hvalid Hstore] | intros Hrefused].
  all: try done.
  all: try (exfalso; apply Hrefused; by split).
  all: repeat split; try done.
  all: try (intros Hin; rewrite filter_app, fmap_app, filter_cons, filter_nil;
            simpl; by rewrite decide_True).
  all: match goal with
       | H : ?x ∈ _ ++ [_] |- _ =>
           apply elem_of_app in H as [H|H]; [done|];
           apply list_elem_of_singleton in H; by subst x
       end.
Qed.

Lemma send_message_outcomes_witness :
  let w := on_join_room 20 2 "r1" "bob"
             (on_join_room 10 1 "r1" "alice"
                (on_connection 2 (on_connection 1 initial))) in
  let sent := on_send_message 30 1 "r1" "alice" "hi" w in
  let down := on_send_message 30 1 "r1" "alice" "hi" (step (Outage [true]) w) in
  let invalid := on_send_message 30 1 "r1" "alice" "" w in
  (messages sent
   = [ {| msg_id := 0; msg_roomId := "r1"; msg_sender := "alice";
          msg_text := "hi"; msg_timestamp := 30 |} ]
   /\ delivered sent 1 = delivered w 1 ++ [NewMessage 0 "r1" "alice" "hi" 30])
  /\ (messages down = []
      /\ outbox down = outbox w ++ [{| recipients := {[1%nat]};
                                       event := Error "Failed to send message" |}])
  /\ (messages invalid = []
      /\ outbox invalid = outbox w ++ [{| recipients := {[1%nat]};
                                          event := Error "Failed to send message" |}]).
Proof.
  intros w sent down invalid. split; [|split].
  - destruct (send_message_outcomes w 30 1 "r1" "alice" "hi") as [Hok _].
    destruct Hok as (Hm & _ & Hd).
    + split; [reflexivity | vm_compute; discriminate].
    + split; [exact Hm|]. apply Hd.
      apply (bool_decide_unpack _). vm_compute. exact I.
  - destruct (send_message_outcomes (step (Outage [true]) w) 30 1 "r1" "alice" "hi")
      as [_ Hko].
    destruct Hko as (Hm & Ho & _).
    + intros [_ Hstore]. apply Hstore. reflexivity.
    + split; [exact Hm | exact Ho].
  - destruct (send_message_outcomes w 30 1 "r1" "alice" "") as [_ Hko].
    destruct Hko as (Hm & Ho & _).
    + intros [Hvalid _]. discriminate Hvalid.
    + split; [exact Hm | exact Ho].
Defined.

(** ** join-room *)

Lemma try_catch_bind_run {A} (m : M A) (k : A -> M unit) h w a w1 :
  m w = (Ok a, w1) -> try_catch (m ≫= k) h w = try_catch (k a) h w1.
Proof. intros Hm. unfold try_catch. by rewrite (bind_run _ _ _ _ _ Hm). Qed.

Lemma try_catch_bind_throw {A} (m : M A) (k : A -> M unit) h w w1 :
  m w = (Throw, w1) -> try_catch (m ≫= k) h w = h w1.
Proof. intros Hm. unfold try_catch, mbind, M_bind. by rewrite Hm. Qed.

Lemma Room_findOne_cases roomId w :
  exists fs, Room_findOne roomId w = (Throw, set_faults fs w)
             \/ Room_findOne roomId w = (Ok (rooms w !! roomId), set_faults fs w).
Proof. apply (store_call_cases (fun w => (Ok (rooms w !! roomId), w))). Qed.

Lemma Room_findOne_ok roomId w found w' :
  Room_findOne roomId w = (Ok found, w') ->
  found = rooms w !! roomId /\ rooms w' = rooms w.
Proof.
  destruct (Room_findOne_cases roomId w) as [fs [H|H]]; rewrite H; [done|].
  by intros [= <- <-].
Qed.

Lemma Room_save_ok roomId room w w' :
  Room_save roomId room w = (Ok tt, w') ->
  required roomId = true /\ rooms w' = <[roomId := room]> (rooms w).
Proof.
  unfold Room_save. destruct (required roomId); [|done].
  destruct (store_call_cases
    (fun w => (Ok tt, set_rooms (insert roomId room) w)) w) as [fs [H|H]];
    rewrite H; [done|].
  by intros [= <-].
Qed.

(** The part of the join handler after the Room has been found or made. *)
Lemma join_room_rest_rooms sid roomId username room :
  preserves rooms
    (socket_join sid roomId ;;
     socket_bind sid roomId username ;;
     msgs ← Query_exec (recent_query roomId);
     socket_emit sid (RoomJoined roomId (participants room) msgs) ;;
     socket_to_emit sid roomId (UserJoined username (participants room))).
Proof.
  repeat (apply preserves_bind; [auto with frame | intros ?]);
    auto with frame.
  apply emit_to_rooms.
Qed.

(** A successful join leaves the Room collection as it was but for the
    room's own record, which exists afterwards with the username added. *)
Lemma join_room_rooms now sid roomId username w w' :
  join_room_try now sid roomId username w = (Ok tt, w') ->
  rooms w' =
    match rooms w !! roomId with
    | None =>
        <[roomId := {| participants := [username]; createdAt := now |}]> (rooms w)
    | Some room =>
        if bool_decide (username ∈ participants room) then rooms w
        else <[roomId := {| participants := participants room ++ [username];
                            createdAt := createdAt room |}]> (rooms w)
    end.
Proof.
  unfold join_room_try. intros H.
  apply bind_ok in H as (found & w1 & Hfind & H).
  apply Room_findOne_ok in Hfind as [-> Hw1].
  apply bind_ok in H as (room & w2 & Hroom & Hrest).
  pose proof (join_room_rest_rooms sid roomId username room w2) as Hframe.
  rewrite Hrest in Hframe. simpl in Hframe. rewrite Hframe. clear Hframe Hrest.
  destruct (rooms w !! roomId) as [room0|].
  - case_bool_decide.
    + injection Hroom as <- <-. done.
    + apply bind_ok in Hroom as ([] & w3 & Hsave & Hret).
      injection Hret as <- <-.
      apply Room_save_ok in Hsave as [_ ->]. by rewrite Hw1.
  - apply bind_ok in Hroom as ([] & w3 & Hsave & Hret).
    injection Hret as <- <-.
    apply Room_save_ok in Hsave as [_ ->]. by rewrite Hw1.
Qed.

(** C7: joining a room whose participant list already has the username
    leaves that Room record, and the whole Room collection, as it was; no
    second entry is appended, whatever the store calls of the handler do. *)
Theorem join_room_present_username_idempotent
    (w : World) (now : Z) (sid : nat) (roomId username : string) (room : Room) :
  rooms w !! roomId = Some room ->
  username ∈ participants room ->
  let w' := on_join_room now sid roomId username w in
  rooms w' = rooms w /\ rooms w' !! roomId = Some room.
Proof.
  intros Hroom Hin w'.
  assert (rooms w' = rooms w) as Heq; [|by rewrite Heq].
  subst w'. unfold on_join_room, run, join_room_try.
  destruct (Room_findOne_cases roomId w) as [fs [Hf|Hf]].
  - by rewrite (try_catch_bind_throw _ _ _ _ _ Hf).
  - rewrite (try_catch_bind_run _ _ _ _ _ _ Hf), Hroom.
    rewrite bool_decide_eq_true_2 by done.
    rewrite (try_catch_bind_run _ _ _ _ room (set_faults fs w)) by done.
    change (rooms w) with (rooms (set_faults fs w)).
    apply (preserves_try_catch rooms); [|apply emit_to_rooms].
    apply join_room_rest_rooms.
Qed.

Lemma join_room_present_username_idempotent_witness :
  let w := on_join_room 10 1 "r1" "alice" (on_connection 2 (on_connection 1 initial)) in
  rooms (on_join_room 20 2 "r1" "alice" w) = rooms w
  /\ rooms (on_join_room 20 2 "r1" "alice" w) !! "r1"
     = Some {| participants := ["alice"]; createdAt := 10 |}.
Proof.
  intros w.
  apply (join_room_present_username_idempotent w 20 2 "r1" "alice"
           {| participants := ["alice"]; createdAt := 10 |}).
  - vm_compute. reflexivity.
  - simpl. apply list_elem_of_here.
Defined.

Lemma add_participant_fresh ps us :
  NoDup (ps ++ us) -> fold_left add_participant us ps = ps ++ us.
Proof.
  revert ps. induction us as [|u us IH]; intros ps Hnd; simpl.
  - by rewrite app_nil_r.
  - unfold add_participant at 2.
    rewrite bool_decide_eq_false_2.
    + rewrite IH; rewrite <- app_assoc; done.
    + apply NoDup_app in Hnd as (_ & Hdisj & _).
      intros Hin. apply (Hdisj u Hin). by left.
Qed.

Lemma on_join_room_ok roomId j w :
  join_succeeds roomId j w ->
  join_room_try (j_now j) (j_sid j) roomId (j_username j) w
  = (Ok tt, on_join_room (j_now j) (j_sid j) roomId (j_username j) w).
Proof.
  unfold join_succeeds, on_join_room, run, try_catch.
  by destruct (join_room_try _ _ _ _ w) as [[[]|] w1]; simpl; intros.
Qed.

(** The first join on a room that has no record creates the record. *)
Lemma join_room_creates roomId j w :
  rooms w !! roomId = None ->
  join_succeeds roomId j w ->
  rooms (on_join_room (j_now j) (j_sid j) roomId (j_username j) w) !! roomId
  = Some {| participants := [j_username j]; createdAt := j_now j |}.
Proof.
  intros Hnone Hok. apply on_join_room_ok, join_room_rooms in Hok.
  rewrite Hok, Hnone. apply lookup_insert_eq.
Qed.

(** Joins on a room that has a record add to its participant list, in
    call order, the usernames it does not have yet. *)
Lemma joins_existing roomId js w w' :
  joins roomId js w w' ->
  forall room, rooms w !! roomId = Some room ->
  exists room', rooms w' !! roomId = Some room'
    /\ participants room'
       = fold_left add_participant (j_username <$> js) (participants room)
    /\ createdAt room' = createdAt room.
Proof.
  induction 1 as [w|j js w w' Hok _ IH]; intros room Hroom.
  - by exists room.
  - apply on_join_room_ok, join_room_rooms in Hok. rewrite Hroom in Hok.
    simpl. unfold add_participant at 2. case_bool_decide.
    + apply IH. by rewrite Hok.
    + destruct (IH {| participants := participants room ++ [j_username j];
                      createdAt := createdAt room |}) as (room' & ? & ? & ?).
      { rewrite Hok. apply lookup_insert_eq. }
      by exists room'.
Qed.

(** C2: take a room that has no record and a non-empty sequence of
    successful join-room calls on it whose usernames are pairwise
    distinct.  The first call creates the record with the participant list
    holding just its username, and after the last call the participant
    list is the list of the usernames in call order, each one once. *)
Theorem join_room_sequence_participants
    (w w' : World) (roomId : string) (j : Join) (js : list Join) :
  rooms w !! roomId = None ->
  NoDup (j_username <$> j :: js) ->
  joins roomId (j :: js) w w' ->
  rooms (on_join_room (j_now j) (j_sid j) roomId (j_username j) w) !! roomId
    = Some {| participants := [j_username j]; createdAt := j_now j |}
  /\ participants <$> rooms w' !! roomId = Some (j_username <$> j :: js).
Proof.
  intros Hnone Hnd Hjoins. inversion Hjoins as [|? ? ? ? Hok Hrest]; subst.
  pose proof (join_room_creates roomId j w Hnone Hok) as Hfirst.
  split; [done|].
  destruct (joins_existing _ _ _ _ Hrest _ Hfirst) as (room' & -> & Hps & _).
  simpl in *. by rewrite Hps, (add_participant_fresh [j_username j]).
Qed.

Lemma join_room_sequence_participants_witness :
  let w0 := on_connection 2 (on_connection 1 initial) in
  participants <$>
    rooms (on_join_room 30 1 "r1" "carol"
             (on_join_room 20 2 "r1" "bob"
                (on_join_room 10 1 "r1" "alice" w0))) !! "r1"
  = Some ["alice"; "bob"; "carol"]%string.
Proof.
  intros w0.
  refine (proj2 (join_room_sequence_participants w0 _ "r1"
    {| j_now := 10; j_sid := 1; j_username := "alice" |}
    [ {| j_now := 20; j_sid := 2; j_username := "bob" |};
      {| j_now := 30; j_sid := 1; j_username := "carol" |} ] _ _ _)).
  - vm_compute. reflexivity.
  - apply (bool_decide_unpack _). vm_compute. exact I.
  - repeat (apply joins_cons; [vm_compute; reflexivity|]). apply joins_nil.
Defined.

(** The reply of a successful join: one room-joined emission to the caller
    with the result of the handler's query on the Message collection,
    then one user-joined emission to the other subscribers. *)
Lemma join_room_reply now sid roomId username w w' :
  join_room_try now sid roomId username w = (Ok tt, w') ->
  messages w' = messages w
  /\ exists room,
       rooms w' !! roomId = Some room
       /\ outbox w' = outbox w ++
            [ {| recipients := {[sid]};
                 event := RoomJoined roomId (participants room)
                            (exec (recent_query roomId) (messages w)) |};
              {| recipients := members w' roomId ∖ {[sid]};
                 event := UserJoined username (participants room) |} ].
Proof.
  unfold join_room_try. intros H.
  apply bind_ok in H as (found & w1 & Hfind & H).
  apply store_call_ok in Hfind as [fs1 [= <- <-]].
  apply bind_ok in H as (room & w2 & Hroom & H).
  assert (messages w2 = messages w /\ outbox w2 = outbox w
          /\ rooms w2 !! roomId = Some room) as (Hm2 & Ho2 & Hr2).
  { simpl in Hroom. destruct (rooms w !! roomId) as [room0|] eqn:Hlook.
    - case_bool_decide.
      + by injection Hroom as <- <-.
      + apply bind_ok in Hroom as ([] & w3 & Hsave & [= <- <-]).
        unfold Room_save in Hsave. destruct (required roomId); [|done].
        apply store_call_ok in Hsave as [fs2 [= <-]].
        repeat split. apply lookup_insert_eq.
    - apply bind_ok in Hroom as ([] & w3 & Hsave & [= <- <-]).
      unfold Room_save in Hsave. destruct (required roomId); [|done].
      apply store_call_ok in Hsave as [fs2 [= <-]].
      repeat split. apply lookup_insert_eq. }
  apply bind_ok in H as ([] & w3 & [= <-] & H).
  apply bind_ok in H as ([] & w4 & [= <-] & H).
  apply bind_ok in H as (msgs & w5 & Hq & H).
  apply store_call_ok in Hq as [fs3 [= <- <-]].
  apply bind_ok in H as ([] & w6 & [= <-] & [= <-]).
  simpl. split; [done|]. exists room. split; [done|].
  by rewrite Hm2, Ho2, <- app_assoc.
Qed.

(** The join-time list never has more than 50 entries and is in ascending
    timestamp order. *)
Lemma join_room_reply_capped_ascending roomId coll :
  (length (exec (recent_query roomId) coll) <= 50)%nat
  /\ StronglySorted ts_le (exec (recent_query roomId) coll).
Proof.
  split; [rewrite recent_query_length; lia | apply recent_query_sorted].
Qed.

(** The defect is systematic: whenever a room has more than 50 documents
    with pairwise different timestamps, the newest of them is not in the
    join-time list. *)
Lemma join_room_reply_misses_newest roomId coll :
  (50 < length (in_room roomId coll))%nat ->
  NoDup (msg_timestamp <$> in_room roomId coll) ->
  exists newest,
    newest ∈ in_room roomId coll
    /\ (forall m, m ∈ in_room roomId coll -> ts_le m newest)
    /\ newest ∉ exec (recent_query roomId) coll.
Proof.
  intros Hlen Hnd. rewrite recent_query_exec.
  pose proof (ascending_perm roomId coll) as Hperm.
  pose proof (ascending_sorted roomId coll) as Hsorted.
  rewrite <- Hperm in Hnd. apply NoDup_fmap_1 in Hnd.
  rewrite <- (Permutation_length Hperm) in Hlen.
  setoid_rewrite <- Hperm.
  destruct (ascending roomId coll) as [|m0 l0] using rev_ind;
    [simpl in Hlen; lia|].
  clear IHl0. rename m0 into newest, l0 into older.
  rewrite length_app in Hlen. simpl in Hlen.
  exists newest. split; [|split].
  - apply elem_of_app. right. apply list_elem_of_here.
  - intros m [Hm|Hm]%elem_of_app.
    + eapply StronglySorted_app_1_elem_of; [exact Hsorted|exact Hm|].
      apply list_elem_of_here.
    + apply list_elem_of_singleton in Hm as ->. unfold ts_le. lia.
  - rewrite take_app_le by lia. intros Hin.
    apply NoDup_app in Hnd as (_ & Hdisj & _).
    apply (Hdisj newest); [|apply list_elem_of_here].
    by apply (subseteq_take 50 older).
Qed.

(** C1, evaluated: a connection sends 51 messages to room r1 at clock
    readings 1 to 51 and another connection then joins.  The room-joined
    reply holds the documents with timestamps 1 to 50, the 50 oldest: the
    newest document is missing, where the 50 most recent are those with
    timestamps 2 to 51. *)
Theorem join_room_reply_is_the_oldest_fifty :
  let w := foldl (fun w i => on_send_message (Z.of_nat i) 7 "r1" "alice" "hi" w)
                 (on_connection 8 (on_connection 7 initial)) (seq 1 51) in
  let reply := exec (recent_query "r1") (messages w) in
  messages w = backlog "r1" 51
  /\ delivered (on_join_room 1000 8 "r1" "bob" w) 8
     = [RoomJoined "r1" ["bob"] reply]
  /\ msg_timestamp <$> reply = Z.of_nat <$> seq 1 50
  /\ msg_timestamp <$> most_recent_50 "r1" (messages w) = Z.of_nat <$> seq 2 50
  /\ reply ≠ most_recent_50 "r1" (messages w).
Proof.
  intros w reply.
  assert (messages w = backlog "r1" 51) as Hm by (vm_compute; reflexivity).
  split; [done|]. split; [vm_compute; reflexivity|].
  subst reply. rewrite Hm. clear Hm w.
  split; [vm_compute; reflexivity|]. split; [vm_compute; reflexivity|].
  intros Heq. apply (f_equal (fmap msg_timestamp)) in Heq.
  vm_compute in Heq. discriminate Heq.
Qed.

(** ** get-room-messages *)

(** C8: unless the store call fails, get-room-messages answers with all
    the documents of the room, each as often as the collection has it and
    none left out however many there are, in ascending timestamp order;
    the join-time list is the first 50 entries of this answer. *)
Theorem get_room_messages_all_ascending (w : World) (roomId : string) :
  head (faults w) ≠ Some true ->
  exists msgs,
    (get_room_messages roomId w).1 = MessagesJson msgs
    /\ msgs ≡ₚ in_room roomId (messages w)
    /\ length msgs = length (in_room roomId (messages w))
    /\ StronglySorted ts_le msgs
    /\ exec (recent_query roomId) (messages w) = take 50 msgs.
Proof.
  intros Hhead. exists (ascending roomId (messages w)).
  split.
  - unfold get_room_messages, Query_exec, store_call.
    destruct (faults w) as [|[] fs]; simpl in *; done.
  - split; [apply ascending_perm|].
    split; [apply Permutation_length, ascending_perm|].
    split; [apply ascending_sorted | apply recent_query_exec].
Qed.

Lemma get_room_messages_all_ascending_witness :
  exists msgs,
    (get_room_messages "r1"
       (on_send_message 2 1 "r2" "bob" "yo"
          (on_send_message 1 1 "r1" "alice" "hi" (on_connection 1 initial)))).1
    = MessagesJson msgs
    /\ length msgs = 1%nat.
Proof.
  destruct (get_room_messages_all_ascending
    (on_send_message 2 1 "r2" "bob" "yo"
       (on_send_message 1 1 "r1" "alice" "hi" (on_connection 1 initial))) "r1")
    as (msgs & Hget & _ & Hlen & _).
  - vm_compute. discriminate.
  - exists msgs. split; [exact Hget | exact Hlen].
Defined.

(** ** disconnect and get-room *)

Lemma truthy_Some s : s ≠ ""%string -> truthy (Some s) = true.
Proof. intros Hs. simpl. by apply negb_true_iff, String.eqb_neq. Qed.

(** Once the transport has dropped the connection it is in no group. *)
Lemma members_delete w sid roomId :
  members (set_sockets (delete sid) w) roomId = members w roomId ∖ {[sid]}.
Proof. unfold members. simpl. by rewrite map_filter_delete, dom_delete_L. Qed.

(** The handler on a connection with both fields set to non-empty strings. *)
Lemma on_disconnect_joined w sid s r u :
  sockets w !! sid = Some s ->
  sock_roomId s = Some r -> sock_username s = Some u ->
  r ≠ ""%string -> u ≠ ""%string ->
  on_disconnect sid w
  = run (try_catch (disconnect_try sid r u) (mret tt)) (set_sockets (delete sid) w).
Proof.
  intros Hs Hr Hu Hr' Hu'. unfold on_disconnect. rewrite Hs. simpl.
  rewrite Hr, Hu. by rewrite !truthy_Some.
Qed.

(** The whole effect of a disconnect on a healthy store, when the
    connection is bound to a room that has a record. *)
Lemma on_disconnect_healthy w sid s r u room :
  sockets w !! sid = Some s ->
  sock_roomId s = Some r -> sock_username s = Some u ->
  r ≠ ""%string -> u ≠ ""%string ->
  healthy w ->
  rooms w !! r = Some room ->
  let ps := filter (fun p => p ≠ u) (participants room) in
  let w' := on_disconnect sid w in
  healthy w' /\ messages w' = messages w
  /\ if (length ps =? 0)%nat
     then rooms w' = delete r (rooms w) /\ outbox w' = outbox w
     else rooms w' = <[r := {| participants := ps; createdAt := createdAt room |}]>
                       (rooms w)
          /\ outbox w' = outbox w ++
               [{| recipients := members w r ∖ {[sid]}; event := UserLeft u ps |}].
Proof.
  intros Hs Hr Hu Hr' Hu' Hw Hroom ps w'. subst w'.
  rewrite (on_disconnect_joined w sid s r u) by done.
  set (w0 := set_sockets (delete sid) w).
  assert (healthy w0) as Hw0 by done.
  unfold disconnect_try, Room_findOne.
  destruct (store_call_healthy (fun w => (Ok (rooms w !! r), w)) w0 Hw0)
    as (fs1 & Hfs1 & Hfind).
  unfold run. rewrite (try_catch_bind_run _ _ _ _ _ _ Hfind).
  simpl. rewrite Hroom. fold ps.
  destruct (length ps =? 0)%nat.
  - unfold Room_deleteOne, try_catch.
    destruct (store_call_healthy (fun w => (Ok tt, set_rooms (delete r) w))
                (set_faults fs1 w0) Hfs1) as (fs2 & Hfs2 & ->).
    done.
  - unfold Room_save. replace (required r) with true
      by (symmetry; by apply negb_true_iff, String.eqb_neq).
    destruct (store_call_healthy
                (fun w => (Ok tt, set_rooms (insert r
                   {| participants := ps; createdAt := createdAt room |}) w))
                (set_faults fs1 w0) Hfs1) as (fs2 & Hfs2 & Hsave).
    rewrite (try_catch_bind_run _ _ _ _ _ _ Hsave). simpl.
    repeat split; try done.
    apply (f_equal (fun x => outbox w ++
                     [{| recipients := x; event := UserLeft u ps |}])).
    transitivity (members w0 r ∖ {[sid]}); [reflexivity|].
    unfold w0. rewrite members_delete.
    apply set_eq. intros x. rewrite !elem_of_difference. tauto.
Qed.

Lemma get_room_healthy w roomId :
  healthy w ->
  (get_room roomId w).1 =
    match rooms w !! roomId with
    | Some room => RoomJson roomId room
    | None => Status 404 "Room not found"
    end.
Proof.
  intros Hw. unfold get_room, Room_findOne.
  destruct (store_call_healthy (fun w => (Ok (rooms w !! roomId), w)) w Hw)
    as (fs & _ & ->).
  simpl. by destruct (rooms w !! roomId).
Qed.

(** C9: a disconnect changes neither collection and emits nothing in two
    cases: the connection never joined, so that its roomId and username
    fields are unset; or the connection joined but its room has no record
    any more, whatever the store call of the handler does. *)
Theorem disconnect_without_room_is_silent (w : World) (sid : nat) (s : Socket) :
  sockets w !! sid = Some s ->
  (sock_roomId s = None /\ sock_username s = None)
  \/ (exists r u, sock_roomId s = Some r /\ sock_username s = Some u
                  /\ rooms w !! r = None) ->
  let w' := on_disconnect sid w in
  rooms w' = rooms w /\ messages w' = messages w /\ outbox w' = outbox w.
Proof.
  intros Hs Hcase w'. subst w'. unfold on_disconnect. rewrite Hs. simpl.
  destruct Hcase as [[Hr Hu] | (r & u & Hr & Hu & Hnone)];
    rewrite Hr, ?Hu; [done|].
  destruct (truthy (Some r) && truthy (Some u)); [|done].
  unfold run, disconnect_try.
  destruct (Room_findOne_cases r (set_sockets (delete sid) w)) as [fs [Hf|Hf]].
  - by rewrite (try_catch_bind_throw _ _ _ _ _ Hf).
  - rewrite (try_catch_bind_run _ _ _ _ _ _ Hf). simpl. by rewrite Hnone.
Qed.

Lemma disconnect_without_room_is_silent_witness :
  let unjoined := on_connection 1 initial in
  let orphaned :=
    on_disconnect 2
      (on_join_room 20 2 "r1" "alice"
         (on_join_room 10 1 "r1" "alice"
            (on_connection 2 (on_connection 1 initial)))) in
  (rooms (on_disconnect 1 unjoined) = rooms unjoined
   /\ messages (on_disconnect 1 unjoined) = messages unjoined
   /\ outbox (on_disconnect 1 unjoined) = outbox unjoined)
  /\ (rooms (on_disconnect 1 orphaned) = rooms orphaned
      /\ messages (on_disconnect 1 orphaned) = messages orphaned
      /\ outbox (on_disconnect 1 orphaned) = outbox orphaned).
Proof.
  intros unjoined orphaned. split.
  - apply (disconnect_without_room_is_silent unjoined 1
             {| sock_roomId := None; sock_username := None; sock_rooms := ∅ |}).
    + vm_compute. reflexivity.
    + left. split; reflexivity.
  - apply (disconnect_without_room_is_silent orphaned 1
             {| sock_roomId := Some "r1"; sock_username := Some "alice";
                sock_rooms := {["r1"]} ∪ ∅ |}).
    + vm_compute. reflexivity.
    + right. exists "r1", "alice". repeat split.
Defined.

(** Where the username is not empty, the last participant's disconnect
    does delete the room: the connection is bound to a room and to a
    non-empty username, the room's participant list holds exactly that
    username, and the store is healthy.  Disconnect then deletes the Room
    record and nothing else of the Room collection, and get-room on that
    roomId answers 404 with the error text Room not found. *)
Theorem disconnect_last_participant_deletes_room
    (w : World) (sid : nat) (s : Socket) (r u : string) (room : Room) :
  sockets w !! sid = Some s ->
  sock_roomId s = Some r -> sock_username s = Some u ->
  r ≠ ""%string -> u ≠ ""%string ->
  healthy w ->
  rooms w !! r = Some room ->
  participants room = [u] ->
  let w' := on_disconnect sid w in
  rooms w' !! r = None
  /\ rooms w' = delete r (rooms w)
  /\ (get_room r w').1 = Status 404 "Room not found".
Proof.
  intros Hs Hr Hu Hr' Hu' Hw Hroom Hps w'.
  destruct (on_disconnect_healthy w sid s r u room) as (Hw' & _ & Hrooms);
    try done.
  fold w' in Hw', Hrooms. rewrite Hps in Hrooms.
  rewrite filter_cons, decide_False, filter_nil in Hrooms by (intros H; done).
  simpl in Hrooms. destruct Hrooms as [Hrooms _].
  assert (rooms w' !! r = None) as Hnone
    by (rewrite Hrooms; apply lookup_delete_eq).
  repeat split; [done..|].
  by rewrite get_room_healthy, Hnone.
Qed.

Lemma disconnect_last_participant_deletes_room_witness :
  let w := on_join_room 10 1 "r1" "alice" (on_connection 1 initial) in
  rooms (on_disconnect 1 w) !! "r1" = None
  /\ (get_room "r1" (on_disconnect 1 w)).1 = Status 404 "Room not found".
Proof.
  intros w.
  destruct (disconnect_last_participant_deletes_room w 1
    {| sock_roomId := Some "r1"; sock_username := Some "alice";
       sock_rooms := {["r1"]} ∪ ∅ |} "r1" "alice"
    {| participants := ["alice"]; createdAt := 10 |}) as (Hnone & _ & Hget).
  - vm_compute. reflexivity.
  - reflexivity.
  - reflexivity.
  - discriminate.
  - discriminate.
  - apply Forall_nil_2.
  - vm_compute. reflexivity.
  - reflexivity.
  - split; [exact Hnone | exact Hget].
Defined.

(** The statement that the last participant's disconnect deletes the
    room, for every username, is false: a connection joins r1 with the
    empty string as username, so that the room's participant list holds
    exactly that username; the store is healthy; after the disconnect the
    Room record is still there. *)
Lemma disconnect_empty_username_keeps_room :
  ~ (forall (w : World) (sid : nat) (s : Socket) (r u : string) (room : Room),
       sockets w !! sid = Some s ->
       sock_roomId s = Some r -> sock_username s = Some u ->
       healthy w ->
       rooms w !! r = Some room ->
       participants room = [u] ->
       rooms (on_disconnect sid w) !! r = None
       /\ (get_room r (on_disconnect sid w)).1 = Status 404 "Room not found").
Proof.
  intros Hclaim.
  destruct (Hclaim (on_join_room 10 1 "r1" "" (on_connection 1 initial)) 1%nat
    {| sock_roomId := Some "r1"; sock_username := Some "";
       sock_rooms := {["r1"]} ∪ ∅ |} "r1" ""
    {| participants := [""]; createdAt := 10 |}) as [Hnone _].
  - vm_compute. reflexivity.
  - reflexivity.
  - reflexivity.
  - apply Forall_nil_2.
  - vm_compute. reflexivity.
  - reflexivity.
  - vm_compute in Hnone. discriminate Hnone.
Qed.

(** Removing a name from a list that has it once takes out that one entry
    and keeps the others in place. *)
Lemma filter_out_NoDup (u : string) (ps : list string) :
  NoDup ps -> u ∈ ps ->
  exists l1 l2, ps = l1 ++ u :: l2
                /\ filter (fun p => p ≠ u) ps = l1 ++ l2.
Proof.
  intros Hnd Hin. apply list_elem_of_split in Hin as (l1 & l2 & ->).
  exists l1, l2. split; [done|].
  apply NoDup_app in Hnd as (_ & Hl1 & Hl2). apply NoDup_cons in Hl2 as [Hl2 _].
  assert (forall l : list string, u ∉ l -> filter (fun p => p ≠ u) l = l) as Hid.
  { intros l Hl. induction l as [|x l IH]; [done|].
    apply not_elem_of_cons in Hl as [Hx Hl].
    rewrite filter_cons, decide_True by done. by rewrite IH. }
  rewrite filter_app, filter_cons, decide_False by (intros H; done).
  rewrite !Hid; [done..|].
  intros Hu. apply (Hl1 u Hu). by left.
Qed.

(** Where the username is not empty, the disconnect of one of several
    participants does take that participant out: the connection is bound
    to a room and to a non-empty username of its participant list, the
    list has another username as well, and the store is healthy.  After
    the disconnect the Room record is still there, its participant list is
    the old one without that username and with every other entry in place
    (when no name was listed twice, exactly one entry has gone), no other
    Room record has changed, and one user-left emission with the username
    and the new list goes to the subscribers of the room's broadcast group
    other than the disconnecting connection, which receives nothing. *)
Theorem disconnect_other_participants_remain
    (w : World) (sid : nat) (s : Socket) (r u p : string) (room : Room) :
  sockets w !! sid = Some s ->
  sock_roomId s = Some r -> sock_username s = Some u ->
  r ≠ ""%string -> u ≠ ""%string ->
  healthy w ->
  rooms w !! r = Some room ->
  u ∈ participants room -> p ∈ participants room -> p ≠ u ->
  let w' := on_disconnect sid w in
  let ps := filter (fun q => q ≠ u) (participants room) in
  rooms w' = <[r := {| participants := ps; createdAt := createdAt room |}]> (rooms w)
  /\ (forall q, q ∈ ps <-> q ∈ participants room /\ q ≠ u)
  /\ (NoDup (participants room) ->
      exists l1 l2, participants room = l1 ++ u :: l2 /\ ps = l1 ++ l2)
  /\ outbox w' = outbox w ++
       [{| recipients := members w r ∖ {[sid]}; event := UserLeft u ps |}]
  /\ (forall sid', sid' ∈ members w r -> sid' ≠ sid ->
      delivered w' sid' = delivered w sid' ++ [UserLeft u ps])
  /\ delivered w' sid = delivered w sid.
Proof.
  intros Hs Hr Hu Hr' Hu' Hw Hroom Hin Hp Hpu w' ps.
  destruct (on_disconnect_healthy w sid s r u room) as (_ & _ & Hrooms);
    try done.
  fold w' ps in Hrooms.
  assert (p ∈ ps) as Hps by (by apply list_elem_of_filter).
  assert ((length ps =? 0)%nat = false) as Hne.
  { apply Nat.eqb_neq. intros Hnil%nil_length_inv.
    rewrite Hnil in Hps. by apply elem_of_nil in Hps. }
  rewrite Hne in Hrooms. destruct Hrooms as [Hrooms Hout].
  split; [done|]. split; [|split; [|split; [done|split]]].
  - intros q. unfold ps. rewrite list_elem_of_filter. tauto.
  - intros Hnd. by apply filter_out_NoDup.
  - intros sid' Hmem Hsid'. unfold delivered.
    rewrite Hout, filter_app, fmap_app, filter_cons, filter_nil. simpl.
    rewrite decide_True; [done|].
    apply elem_of_difference. split; [done|]. by apply not_elem_of_singleton.
  - unfold delivered.
    rewrite Hout, filter_app, fmap_app, filter_cons, filter_nil. simpl.
    rewrite decide_False; [by rewrite app_nil_r|].
    intros [_ Hn]%elem_of_difference. apply Hn. by apply elem_of_singleton.
Qed.

Lemma disconnect_other_participants_remain_witness :
  let w := on_join_room 20 2 "r1" "bob"
             (on_join_room 10 1 "r1" "alice"
                (on_connection 2 (on_connection 1 initial))) in
  participants <$> rooms (on_disconnect 1 w) !! "r1" = Some ["bob"]%string
  /\ delivered (on_disconnect 1 w) 2 = delivered w 2 ++ [UserLeft "alice" ["bob"]]
  /\ delivered (on_disconnect 1 w) 1 = delivered w 1.
Proof.
  intros w.
  destruct (disconnect_other_participants_remain w 1
    {| sock_roomId := Some "r1"; sock_username := Some "alice";
       sock_rooms := {["r1"]} ∪ ∅ |} "r1" "alice" "bob"
    {| participants := ["alice"; "bob"]; createdAt := 10 |})
    as (Hrooms & _ & _ & _ & Hothers & Hself).
  - vm_compute. reflexivity.
  - reflexivity.
  - reflexivity.
  - discriminate.
  - discriminate.
  - apply Forall_nil_2.
  - vm_compute. reflexivity.
  - simpl. apply list_elem_of_here.
  - simpl. apply list_elem_of_further, list_elem_of_here.
  - discriminate.
  - split; [|split].
    + rewrite Hrooms, lookup_insert_eq. reflexivity.
    + apply Hothers; [|discriminate].
      apply (bool_decide_unpack _). vm_compute. exact I.
    + exact Hself.
Defined.

(** The statement that a disconnect takes the username out of the list,
    for every username, is false: r1 has the participants (empty string)
    and bob on a healthy store; the connection bound to the empty username
    disconnects; the participant list still has both entries afterwards. *)
Lemma disconnect_empty_username_keeps_participant :
  ~ (forall (w : World) (sid : nat) (s : Socket) (r u p : string) (room : Room),
       sockets w !! sid = Some s ->
       sock_roomId s = Some r -> sock_username s = Some u ->
       healthy w ->
       rooms w !! r = Some room ->
       u ∈ participants room -> p ∈ participants room -> p ≠ u ->
       exists room',
         rooms (on_disconnect sid w) !! r = Some room'
         /\ u ∉ participants room').
Proof.
  intros Hclaim.
  destruct (Hclaim
    (on_join_room 20 2 "r1" "bob"
       (on_join_room 10 1 "r1" ""
          (on_connection 2 (on_connection 1 initial)))) 1%nat
    {| sock_roomId := Some "r1"; sock_username := Some "";
       sock_rooms := {["r1"]} ∪ ∅ |} "r1" "" "bob"
    {| participants := [""; "bob"]; createdAt := 10 |})
    as (room' & Hroom' & Hgone).
  - vm_compute. reflexivity.
  - reflexivity.
  - reflexivity.
  - apply Forall_nil_2.
  - vm_compute. reflexivity.
  - simpl. apply list_elem_of_here.
  - simpl. apply list_elem_of_further, list_elem_of_here.
  - discriminate.
  - vm_compute in Hroom'. injection Hroom' as <-.
    apply Hgone. simpl. apply list_elem_of_here.
Qed.

(** C3, evaluated: a connection joins r1 with the empty string as
    username on a healthy store.  The join lists the empty name as the
    room's only participant, binds the connection to it and subscribes it.
    The guard of the disconnect handler takes the empty username for a
    connection that never joined: after the disconnect the Room record is
    still there, with the empty name still listed, and get-room answers
    with the record instead of 404. *)
Theorem disconnect_empty_username_leaves_room :
  let w := on_join_room 10 1 "r1" "" (on_connection 1 initial) in
  let w' := on_disconnect 1 w in
  rooms w !! "r1" = Some {| participants := [""]; createdAt := 10 |}
  /\ sockets w !! 1%nat = Some {| sock_roomId := Some "r1";
                                  sock_username := Some "";
                                  sock_rooms := {["r1"]} |}
  /\ delivered w 1 = [RoomJoined "r1" [""] []]
  /\ faults w = []
  /\ rooms w' !! "r1" = Some {| participants := [""]; createdAt := 10 |}
  /\ (get_room "r1" w').1
     = RoomJson "r1" {| participants := [""]; createdAt := 10 |}
  /\ (get_room "r1" w').1 ≠ Status 404 "Room not found".
Proof.
  intros w w'.
  do 6 (split; [vm_compute; reflexivity|]).
  vm_compute. discriminate.
Qed.

(** C4, evaluated: on a healthy store a connection joins r1 with the empty
    string as username and a second connection joins r1 as bob, so that
    the room has two participants.  The guard of the disconnect handler
    takes the empty username for a connection that never joined: after the
    disconnect of the first connection the participant list still has both
    entries, nothing has been emitted, and bob's connection, the remaining
    member of the room, has received no user-left. *)
Theorem disconnect_empty_username_leaves_participant :
  let w := on_join_room 20 2 "r1" "bob"
             (on_join_room 10 1 "r1" ""
                (on_connection 2 (on_connection 1 initial))) in
  let w' := on_disconnect 1 w in
  rooms w !! "r1" = Some {| participants := [""; "bob"]; createdAt := 10 |}
  /\ sockets w !! 1%nat = Some {| sock_roomId := Some "r1";
                                  sock_username := Some "";
                                  sock_rooms := {["r1"]} |}
  /\ members w "r1" = {[1%nat; 2%nat]}
  /\ faults w = []
  /\ rooms w' !! "r1" = Some {| participants := [""; "bob"]; createdAt := 10 |}
  /\ outbox w' = outbox w
  /\ delivered w' 2 = delivered w 2.
Proof.
  intros w w'.
  do 6 (split; [vm_compute; reflexivity|]).
  vm_compute. reflexivity.
Qed.

(** ** Invariants of the reachable worlds *)

Section triples.

Context {A : Type}.
Implicit Types (P E : World -> Prop) (Q : A -> World -> Prop).

Lemma triple_ret P Q E (a : A) :
  (forall w, P w -> Q a w) -> triple P (mret a) Q E.
Proof. intros HPQ w HP. by apply HPQ. Qed.

Lemma triple_throw P Q E : (forall w, P w -> E w) -> triple P (@throw A) Q E.
Proof. intros HPE w HP. by apply HPE. Qed.

Lemma triple_bind {C} P (m : M C) (k : C -> M A) (R : C -> World -> Prop) Q E :
  triple P m R E -> (forall c, triple (R c) (k c) Q E) -> triple P (m ≫= k) Q E.
Proof.
  intros Hm Hk w HP. specialize (Hm w HP). unfold mbind, M_bind.
  destruct (m w) as [[c|] w1]; [|done]. by apply Hk.
Qed.

(** A store call on a precondition that does not look at the oracle. *)
Lemma triple_store_call P (op : M A) Q E :
  (forall fs w, P w -> P (set_faults fs w)) ->
  (forall w, P w -> E w) ->
  triple P op Q E -> triple P (store_call op) Q E.
Proof.
  intros Hfs HPE Hop w HP. unfold store_call.
  destruct (faults w) as [|[] fs].
  - by apply Hop.
  - by apply HPE, Hfs.
  - by apply Hop, Hfs.
Qed.

End triples.

Lemma triple_try_catch P (body handler : M unit) Q E' E :
  triple P body (fun _ => Q) E' ->
  triple E' handler (fun _ => Q) E ->
  triple P (try_catch body handler) (fun _ => Q) E.
Proof.
  intros Hb Hh w HP. specialize (Hb w HP). unfold try_catch.
  destruct (body w) as [[[]|] w1]; [done|]. by apply Hh.
Qed.

(** A handler whose try/catch keeps an invariant on both exits. *)
Lemma triple_run (I : World -> Prop) (m : M unit) w :
  triple I m (fun _ => I) I -> I w -> I (run m w).
Proof.
  intros Hm HI. specialize (Hm w HI). unfold run.
  by destruct (m w) as [[[]|] w1].
Qed.

Lemma wf_set_faults fs w : wf w -> wf (set_faults fs w).
Proof. done. Qed.

Lemma wf_emit_to to e : triple wf (emit_to to e) (fun _ => wf) wf.
Proof. by intros w Hw. Qed.

Lemma rooms_wf_insert rs r room :
  rooms_wf rs -> r ≠ ""%string -> participants room ≠ [] ->
  NoDup (participants room) -> rooms_wf (<[r := room]> rs).
Proof.
  intros Hrs Hr Hne Hnd r' room'. rewrite lookup_insert.
  case_decide; [intros [= <-]; by subst|apply Hrs].
Qed.

Lemma rooms_wf_delete rs r : rooms_wf rs -> rooms_wf (delete r rs).
Proof.
  intros Hrs r' room'. rewrite lookup_delete.
  case_decide; [done|apply Hrs].
Qed.

(** Saving a well-formed record keeps the invariant; the validator
    rejects the empty roomId before the write. *)
Lemma wf_Room_save r room :
  participants room ≠ [] -> NoDup (participants room) ->
  triple wf (Room_save r room) (fun _ w => wf w /\ r ≠ ""%string) wf.
Proof.
  intros Hne Hnd. unfold Room_save.
  destruct (required r) eqn:Hreq; [|by apply triple_throw].
  assert (r ≠ ""%string) as Hr by (by apply String.eqb_neq, negb_true_iff).
  apply triple_store_call; [done..|].
  intros w [Hrs Hss]. split; [|done]. split; [|done].
  by apply rooms_wf_insert.
Qed.

(** In a well-formed world the join handler ends in a well-formed world,
    whether it completes or throws on the way. *)
Lemma wf_on_join_room now sid roomId username w0 :
  wf w0 -> wf (on_join_room now sid roomId username w0).
Proof.
  unfold on_join_room. apply triple_run.
  apply (triple_try_catch _ _ _ _ wf); [|apply wf_emit_to].
  unfold join_room_try.
  apply (triple_bind _ _ _
    (fun found w => wf w /\ found = rooms w !! roomId)).
  { apply triple_store_call; [done..|]. by intros w Hw. }
  intros found.
  apply (triple_bind _ _ _ (fun _ w => wf w /\ roomId ≠ ""%string)).
  { destruct found as [room|].
    - case_bool_decide as Hin.
      + apply triple_ret. intros w [Hw Hfound]. split; [done|].
        symmetry in Hfound. by apply Hw in Hfound as [? _].
      + intros w [Hw Hfound]. symmetry in Hfound.
        destruct (proj1 Hw _ _ Hfound) as (_ & _ & Hnd).
        assert (wf w) as Hw' by done. clear Hw Hfound. revert w Hw'.
        apply (triple_bind _ _ _ (fun _ w => wf w /\ roomId ≠ ""%string)).
        * apply wf_Room_save; simpl.
          -- by destruct (participants room).
          -- apply NoDup_app. split; [done|]. split; [|apply NoDup_singleton].
             intros x Hx ->%list_elem_of_singleton. done.
        * intros []. by apply triple_ret.
    - intros w [Hw _]. revert w Hw.
      apply (triple_bind _ _ _ (fun _ w => wf w /\ roomId ≠ ""%string)).
      + apply wf_Room_save; simpl; [done | apply NoDup_singleton].
      + intros []. by apply triple_ret. }
  intros room.
  apply (triple_bind _ _ _ (fun _ w => wf w /\ roomId ≠ ""%string)).
  { intros w [[Hrs Hss] Hr]. split; [|done]. split; [done|].
    intros sid' s'. simpl. rewrite lookup_alter.
    case_decide; [|apply Hss].
    destruct (sockets w !! sid) as [s0|] eqn:Hs0; [|done].
    intros [= <-]. simpl. by apply Hss in Hs0. }
  intros [].
  apply (triple_bind _ _ _ (fun _ => wf)).
  { intros w [[Hrs Hss] Hr]. split; [done|].
    intros sid' s'. simpl. rewrite lookup_alter.
    case_decide; [|apply Hss].
    destruct (sockets w !! sid) as [s0|]; [|done].
    intros [= <-]. simpl. congruence. }
  intros [].
  apply (triple_bind _ _ _ (fun _ => wf)).
  { apply triple_store_call; [done..|]. by intros w Hw. }
  intros msgs.
  apply (triple_bind _ _ _ (fun _ => wf)); [apply wf_emit_to|].
  intros []. by intros w Hw.
Qed.

Lemma wf_on_disconnect sid w0 : wf w0 -> wf (on_disconnect sid w0).
Proof.
  intros Hw0.
  assert (wf (set_sockets (delete sid) w0)) as Hdel.
  { destruct Hw0 as [Hrs Hss]. split; [done|].
    intros sid' s'. simpl. rewrite lookup_delete.
    case_decide; [done|apply Hss]. }
  unfold on_disconnect.
  destruct (sockets w0 !! sid ≫= sock_roomId) as [r|]; [|done].
  destruct (sockets w0 !! sid ≫= sock_username) as [u|]; [|done].
  destruct (truthy (Some r) && truthy (Some u)); [|done].
  revert Hdel. apply triple_run.
  apply (triple_try_catch _ _ _ _ wf); [|by apply triple_ret].
  unfold disconnect_try.
  apply (triple_bind _ _ _ (fun found w => wf w /\ found = rooms w !! r)).
  { apply triple_store_call; [done..|]. by intros w Hw. }
  intros [room|]; [|by apply triple_ret; intros w [Hw _]].
  destruct (length (filter (fun p => p ≠ u) (participants room)) =? 0)%nat
    eqn:Hlen.
  - apply triple_store_call; [done| by intros w [Hw _] |].
    intros w [[Hrs Hss] _]. split; [|done]. by apply rooms_wf_delete.
  - intros w [Hw Hfound]. symmetry in Hfound.
    destruct (proj1 Hw _ _ Hfound) as (_ & _ & Hnd).
    assert (wf w) as Hw' by done. clear Hw Hfound. revert w Hw'.
    apply (triple_bind _ _ _ (fun _ w => wf w /\ r ≠ ""%string)).
    + apply wf_Room_save; simpl.
      * intros Hnil. rewrite Hnil in Hlen. discriminate Hlen.
      * by apply NoDup_filter.
    + intros []. by intros w [Hw _].
Qed.

(** Every step of the server keeps the invariant. *)
Lemma wf_step i w : wf w -> wf (step i w).
Proof.
  intros Hw. destruct i as [sid|now sid r u|now sid r sender text|sid r u t|sid r|sid|fs];
    simpl; try (destruct (connected w sid); [|done]).
  - destruct (connected w sid); [done|].
    destruct Hw as [Hrs Hss]. split; [done|].
    intros sid' s'. simpl. rewrite lookup_insert.
    case_decide; [by intros [= <-]|apply Hss].
  - by apply wf_on_join_room.
  - revert Hw. unfold on_send_message. apply triple_run.
    apply (triple_try_catch _ _ _ _ wf); [|apply wf_emit_to].
    unfold send_message_try.
    apply (triple_bind _ _ _ (fun _ => wf)); [by intros w0 Hw0|].
    intros m. apply (triple_bind _ _ _ (fun _ => wf)).
    + unfold Message_save. destruct (Message_valid m); [|by apply triple_throw].
      apply triple_store_call; [done..|]. by intros w0 Hw0.
    + intros []. by intros w0 Hw0.
  - done.
  - revert Hw. unfold on_clear_room_chat. apply triple_run.
    apply (triple_try_catch _ _ _ _ wf); [|apply wf_emit_to].
    unfold clear_room_chat_try.
    apply (triple_bind _ _ _ (fun _ => wf)).
    + apply triple_store_call; [done..|]. by intros w0 Hw0.
    + intros []. by intros w0 Hw0.
  - by apply wf_on_disconnect.
  - done.
Qed.

(** In every world the server can reach, each Room record has a non-empty
    roomId and a non-empty participant list in which no username occurs
    twice, and no connection is bound to the empty roomId. *)
Lemma reachable_wf w : reachable w -> wf w.
Proof.
  induction 1 as [|i w _ IH]; [|by apply wf_step].
  split; intros ? ?; simpl; by rewrite lookup_empty.
Qed.

(** In reachable worlds the conditions of the two disconnect theorems on
    the roomId and on repetitions hold by themselves. *)
Lemma reachable_bound_room w sid s r room :
  reachable w ->
  sockets w !! sid = Some s -> sock_roomId s = Some r ->
  rooms w !! r = Some room ->
  r ≠ ""%string /\ NoDup (participants room).
Proof.
  intros [Hrs _]%reachable_wf _ _ Hroom.
  by destruct (Hrs _ _ Hroom) as (? & _ & ?).
Qed.

(** ** The scenarios of the specification, run on the model *)

(** alice joins r1 alone: she gets room-joined with herself as the only
    participant and no messages; user-joined reaches nobody. *)
Example scenario_sole_member :
  let w := on_join_room 10 1 "r1" "alice" (on_connection 1 initial) in
  delivered w 1 = [RoomJoined "r1" ["alice"] []]
  /\ outbox w = [ {| recipients := {[1%nat]};
                     event := RoomJoined "r1" ["alice"] [] |};
                  {| recipients := ∅; event := UserJoined "alice" ["alice"] |} ].
Proof. split; vm_compute; reflexivity. Qed.

(** alice joins r1, then bob: bob gets room-joined with both names, alice
    gets user-joined for bob with both names. *)
Example scenario_second_member :
  let w1 := on_join_room 10 1 "r1" "alice"
              (on_connection 2 (on_connection 1 initial)) in
  let w2 := on_join_room 20 2 "r1" "bob" w1 in
  delivered w2 2 = [RoomJoined "r1" ["alice"; "bob"] []]
  /\ delivered w2 1 = delivered w1 1 ++ [UserJoined "bob" ["alice"; "bob"]].
Proof. split; vm_compute; reflexivity. Qed.

(** alice says hi in r1: alice and bob both get new-message with the text,
    the sender and the generated id. *)
Example scenario_message :
  let w2 := on_join_room 20 2 "r1" "bob"
              (on_join_room 10 1 "r1" "alice"
                 (on_connection 2 (on_connection 1 initial))) in
  let w3 := on_send_message 30 1 "r1" "alice" "hi" w2 in
  delivered w3 1 = delivered w2 1 ++ [NewMessage 0 "r1" "alice" "hi" 30]
  /\ delivered w3 2 = delivered w2 2 ++ [NewMessage 0 "r1" "alice" "hi" 30]
  /\ (get_room_messages "r1" w3).1
     = MessagesJson [ {| msg_id := 0; msg_roomId := "r1"; msg_sender := "alice";
                         msg_text := "hi"; msg_timestamp := 30 |} ].
Proof.
  intros w2 w3.
  do 2 (split; [vm_compute; reflexivity|]). vm_compute. reflexivity.
Qed.

(** The two ways send-message throws: the store is down, or the document
    fails validation (here: an empty text).  Either way the sender alone
    gets the error event and nothing is stored. *)
Example scenario_message_fails :
  let w := on_join_room 20 2 "r1" "bob"
             (on_join_room 10 1 "r1" "alice"
                (on_connection 2 (on_connection 1 initial))) in
  let down := on_send_message 30 1 "r1" "alice" "hi" (step (Outage [true]) w) in
  let invalid := on_send_message 30 1 "r1" "alice" "" w in
  messages down = [] /\ messages invalid = []
  /\ delivered down 1 = delivered w 1 ++ [Error "Failed to send message"]
  /\ delivered invalid 1 = delivered w 1 ++ [Error "Failed to send message"]
  /\ delivered down 2 = delivered w 2
  /\ delivered invalid 2 = delivered w 2.
Proof.
  intros w down invalid.
  do 5 (split; [vm_compute; reflexivity|]). vm_compute. reflexivity.
Qed.

(** * Further properties of the handlers *)

(** ** Which handler writes to which collection *)

(** Views of the world that only the Message side of the store can
    change: they ignore the oracle, the Room collection, the connections
    and the outbox. *)
Section message_side.

Context {B : Type} (f : World -> B).
Hypothesis f_faults : oracle_free f.
Hypothesis f_rooms : forall g w, f (set_rooms g w) = f w.
Hypothesis f_sockets : forall g w, f (set_sockets g w) = f w.
Hypothesis f_outbox : forall g w, f (set_outbox g w) = f w.

Lemma view_Room_save roomId room : preserves f (Room_save roomId room).
Proof.
  unfold Room_save. destruct (required roomId); [|apply preserves_throw].
  apply preserves_store_call; [done|]. intros w. apply f_rooms.
Qed.

Lemma view_Room_deleteOne roomId : preserves f (Room_deleteOne roomId).
Proof. apply preserves_store_call; [done|]. intros w. apply f_rooms. Qed.

Lemma view_emit_to to e : preserves f (emit_to to e).
Proof. intros w. apply f_outbox. Qed.

Lemma view_socket_to_emit sid roomId e : preserves f (socket_to_emit sid roomId e).
Proof. intros w. apply f_outbox. Qed.

Lemma view_join_room_try now sid roomId username :
  preserves f (join_room_try now sid roomId username).
Proof.
  unfold join_room_try.
  apply preserves_bind; [by apply Room_findOne_preserves|]. intros found.
  apply preserves_bind.
  { destruct found as [room|]; [case_bool_decide; [apply preserves_ret|]|];
      (apply preserves_bind; [apply view_Room_save|intros; apply preserves_ret]). }
  intros room.
  apply preserves_bind; [intros w; apply f_sockets|]. intros _.
  apply preserves_bind; [intros w; apply f_sockets|]. intros _.
  apply preserves_bind; [by apply Query_exec_preserves|]. intros msgs.
  apply preserves_bind; [apply view_emit_to|]. intros _.
  apply view_socket_to_emit.
Qed.

Lemma view_on_join_room now sid roomId username w :
  f (on_join_room now sid roomId username w) = f w.
Proof.
  unfold on_join_room.
  apply preserves_run, preserves_try_catch;
    [apply view_join_room_try | apply view_emit_to].
Qed.

Lemma view_disconnect_try sid roomId username :
  preserves f (disconnect_try sid roomId username).
Proof.
  unfold disconnect_try.
  apply preserves_bind; [by apply Room_findOne_preserves|].
  intros [room|]; [|apply preserves_ret].
  case_match; [apply view_Room_deleteOne|].
  apply preserves_bind; [apply view_Room_save|]. intros _.
  apply view_socket_to_emit.
Qed.

Lemma view_on_disconnect sid w : f (on_disconnect sid w) = f w.
Proof.
  unfold on_disconnect.
  destruct (sockets w !! sid ≫= sock_roomId) as [r|]; [|apply f_sockets].
  destruct (sockets w !! sid ≫= sock_username) as [u|]; [|apply f_sockets].
  destruct (truthy (Some r) && truthy (Some u)); [|apply f_sockets].
  rewrite <- (f_sockets (delete sid) w).
  apply preserves_run, preserves_try_catch;
    [apply view_disconnect_try | apply preserves_ret].
Qed.

(** A step that is neither send-message nor clear-room-chat. *)
Lemma view_step i w : writes_messages i = false -> f (step i w) = f w.
Proof.
  intros Hi.
  destruct i as [sid|now sid r u|now sid r sender text|sid r u t|sid r|sid|fs];
    try discriminate Hi; simpl; try (destruct (connected w sid); [|done]).
  - destruct (connected w sid); [done|apply f_sockets].
  - apply view_on_join_room.
  - apply f_outbox.
  - apply view_on_disconnect.
  - apply f_faults.
Qed.

End message_side.

Lemma send_message_try_rooms now roomId sender text :
  preserves rooms (send_message_try now roomId sender text).
Proof.
  unfold send_message_try.
  apply preserves_bind; [by intros w|]. intros m.
  apply preserves_bind; [apply Message_save_rooms|]. intros _.
  apply io_to_emit_rooms.
Qed.

(** X1: the Message collection is written by send-message and
    clear-room-chat only.  Joining, typing, connecting, a store outage and
    disconnecting leave every stored Message as it was, and hand out no
    id; in particular the disconnect that deletes a Room record does not
    delete the room's Messages. *)
Theorem messages_written_by_send_and_clear_only (i : Input) (w : World) :
  writes_messages i = false ->
  messages (step i w) = messages w /\ next_id (step i w) = next_id w.
Proof.
  intros Hi. split.
  - by apply (view_step messages).
  - by apply (view_step next_id).
Qed.

Lemma messages_written_by_send_and_clear_only_witness :
  let w := steps [ Connection 1; JoinRoom 10 1 "r1" "alice";
                   SendMessage 20 1 "r1" "alice" "hi" ] initial in
  rooms (step (Disconnect 1) w) !! "r1" = None
  /\ messages (step (Disconnect 1) w) = messages w
  /\ length (messages w) = 1%nat.
Proof.
  intros w. split; [vm_compute; reflexivity|]. split; [|vm_compute; reflexivity].
  apply (messages_written_by_send_and_clear_only (Disconnect 1) w).
  reflexivity.
Defined.

Lemma rooms_frame_step i w : writes_rooms i = false -> rooms (step i w) = rooms w.
Proof.
  intros Hi.
  destruct i as [sid|now sid r u|now sid r sender text|sid r u t|sid r|sid|fs];
    try discriminate Hi; simpl; try (destruct (connected w sid); [|done]).
  - by destruct (connected w sid).
  - unfold on_send_message.
    apply preserves_run, preserves_try_catch;
      [apply send_message_try_rooms | apply emit_to_rooms].
  - done.
  - unfold on_clear_room_chat.
    apply preserves_run, preserves_try_catch; [|apply emit_to_rooms].
    unfold clear_room_chat_try.
    apply preserves_bind; [apply Message_deleteMany_rooms|]. intros _.
    apply io_to_emit_rooms.
  - done.
Qed.

(** ** More invariants of the reachable worlds *)

Lemma reachable_steps inputs w : reachable w -> reachable (steps inputs w).
Proof.
  revert w. induction inputs as [|i inputs IH]; intros w Hw; [done|].
  apply IH. by constructor.
Qed.

(** X3: in every world the server can reach, each Room record has a
    non-empty roomId and a participant list that is not empty and holds no
    username twice. *)
Theorem reachable_rooms_well_formed (w : World) (r : string) (room : Room) :
  reachable w ->
  rooms w !! r = Some room ->
  r ≠ ""%string /\ participants room ≠ [] /\ NoDup (participants room).
Proof.
  intros Hw Hroom. apply reachable_wf in Hw as [Hrs _]. by apply Hrs.
Qed.

Lemma reachable_rooms_well_formed_witness :
  let w := steps [ Connection 1; Connection 2; JoinRoom 10 1 "r1" "alice";
                   JoinRoom 20 2 "r1" "bob"; JoinRoom 30 2 "r1" "alice";
                   JoinRoom 40 1 "" "carol" ] initial in
  rooms w !! ""%string = None
  /\ NoDup ["alice"; "bob"]%string.
Proof.
  intros w. split; [vm_compute; reflexivity|].
  apply (reachable_rooms_well_formed w "r1"
           {| participants := ["alice"; "bob"]; createdAt := 10 |}).
  - apply reachable_steps, reachable_initial.
  - vm_compute. reflexivity.
Defined.

(** What send-message does to the Message side of the store, on either
    outcome: an id is used up, and a valid document is appended or not. *)
Lemma on_send_message_store now sid roomId sender text w :
  let w' := on_send_message now sid roomId sender text w in
  let m := {| msg_id := next_id w; msg_roomId := roomId; msg_sender := sender;
              msg_text := text; msg_timestamp := now |} in
  next_id w' = S (next_id w)
  /\ (messages w' = messages w
      \/ (Message_valid m = true /\ messages w' = messages w ++ [m])).
Proof.
  unfold on_send_message, run, try_catch, send_message_try, mbind, M_bind,
    new_Message, Message_save, store_call, io_to_emit, emit_to, socket_emit,
    emit_to.
  simpl. destruct (Message_valid _) eqn:Hvalid; simpl;
    [destruct (faults w) as [|[] fs]; simpl|]; split; auto.
Qed.

Lemma messages_wf_send now sid roomId sender text w :
  messages_wf w -> messages_wf (on_send_message now sid roomId sender text w).
Proof.
  intros [Hids Hnd].
  destruct (on_send_message_store now sid roomId sender text w)
    as [Hnext [Hsame|[Hvalid Happ]]];
    unfold messages_wf; rewrite Hnext.
  - rewrite Hsame. split; [|done].
    intros m Hm. destruct (Hids m Hm). split; [lia|done].
  - rewrite Happ. split.
    + intros m [Hm|Hm]%elem_of_app.
      * destruct (Hids m Hm). split; [lia|done].
      * apply list_elem_of_singleton in Hm as ->. split; [simpl; lia|done].
    + rewrite fmap_app. apply NoDup_app. split; [done|].
      split; [|apply NoDup_singleton].
      intros x [m [-> Hm]]%list_elem_of_fmap Hx%list_elem_of_singleton.
      destruct (Hids m Hm) as [Hlt _]. simpl in Hx. lia.
Qed.

Lemma messages_wf_clear sid roomId w :
  messages_wf w -> messages_wf (on_clear_room_chat sid roomId w).
Proof.
  intros [Hids Hnd].
  unfold on_clear_room_chat, run, try_catch, clear_room_chat_try, mbind, M_bind,
    Message_deleteMany, store_call, io_to_emit, emit_to, socket_emit, emit_to.
  destruct (faults w) as [|[] fs]; simpl; split; simpl; try done.
  all: try (intros m [_ Hm]%list_elem_of_filter; by apply Hids).
  all: eapply sublist_NoDup; [exact Hnd | apply fmap_sublist, sublist_filter].
Qed.

Lemma messages_wf_step i w : messages_wf w -> messages_wf (step i w).
Proof.
  intros Hw. destruct (writes_messages i) eqn:Hi.
  - destruct i; try discriminate Hi; simpl; destruct (connected w sid); try done.
    + by apply messages_wf_send.
    + by apply messages_wf_clear.
  - unfold messages_wf.
    by rewrite (view_step messages), (view_step next_id).
Qed.

(** X4: in every world the server can reach, every stored Message has
    non-empty roomId, sender and text, an id the generator handed out
    before, and no two stored Messages have the same id. *)
Theorem reachable_messages_well_formed (w : World) :
  reachable w ->
  (forall m, m ∈ messages w ->
     msg_roomId m ≠ ""%string /\ msg_sender m ≠ ""%string
     /\ msg_text m ≠ ""%string /\ (msg_id m < next_id w)%nat)
  /\ NoDup (msg_id <$> messages w).
Proof.
  intros Hw.
  assert (messages_wf w) as [Hids Hnd].
  { induction Hw as [|i w _ IH]; [|by apply messages_wf_step].
    split; [intros m Hm; by apply elem_of_nil in Hm | apply NoDup_nil_2]. }
  split; [|done]. intros m Hm. destruct (Hids m Hm) as [Hlt Hvalid].
  unfold Message_valid, required in Hvalid.
  apply andb_true_iff in Hvalid as [[H1 H2]%andb_true_iff H3].
  repeat split; try done; by apply String.eqb_neq, negb_true_iff.
Qed.

Lemma reachable_messages_well_formed_witness :
  let w := steps [ Connection 1; SendMessage 10 1 "r1" "alice" "hi";
                   SendMessage 20 1 "r1" "alice" "";
                   SendMessage 30 1 "r2" "bob" "yo";
                   ClearRoomChat 1 "r1";
                   SendMessage 40 1 "r1" "alice" "again" ] initial in
  msg_id <$> messages w = [2; 3]%nat
  /\ NoDup (msg_id <$> messages w).
Proof.
  intros w. split; [vm_compute; reflexivity|].
  apply (reachable_messages_well_formed w).
  apply reachable_steps, reachable_initial.
Defined.

(** ** What a step adds to the outbox *)

(** While the try block of join-room has not reached its two emits, the
    outbox is as it was: a throw happens before anything is emitted. *)
Lemma join_room_throws_silently now sid roomId username w w1 :
  join_room_try now sid roomId username w = (Throw, w1) ->
  outbox w1 = outbox w.
Proof.
  intros Hthrow.
  assert (triple (fun w0 => outbox w0 = outbox w)
            (join_room_try now sid roomId username)
            (fun _ _ => True) (fun w0 => outbox w0 = outbox w)) as Htriple.
  { unfold join_room_try.
    apply (triple_bind _ _ _ (fun _ w0 => outbox w0 = outbox w)).
    { apply triple_store_call; [done..|]. by intros w0 Hw0. }
    intros found.
    apply (triple_bind _ _ _ (fun _ w0 => outbox w0 = outbox w)).
    { assert (forall room, triple (fun w0 => outbox w0 = outbox w)
                (Room_save roomId room ;; mret room)
                (fun _ w0 => outbox w0 = outbox w)
                (fun w0 => outbox w0 = outbox w)) as Hsave.
      { intros room.
        apply (triple_bind _ _ _ (fun _ w0 => outbox w0 = outbox w)).
        - unfold Room_save. destruct (required roomId); [|by apply triple_throw].
          apply triple_store_call; [done..|]. by intros w0 Hw0.
        - intros []. by apply triple_ret. }
      destruct found as [room|]; [|apply Hsave].
      case_bool_decide; [by apply triple_ret | apply Hsave]. }
    intros room.
    apply (triple_bind _ _ _ (fun _ w0 => outbox w0 = outbox w));
      [by intros w0 Hw0|]. intros [].
    apply (triple_bind _ _ _ (fun _ w0 => outbox w0 = outbox w));
      [by intros w0 Hw0|]. intros [].
    apply (triple_bind _ _ _ (fun _ w0 => outbox w0 = outbox w)).
    { apply triple_store_call; [done..|]. by intros w0 Hw0. }
    intros msgs.
    apply (triple_bind _ _ _ (fun _ _ => True)); [by intros w0 Hw0|].
    intros []. by intros w0 Hw0. }
  specialize (Htriple w eq_refl). by rewrite Hthrow in Htriple.
Qed.

(** The outbox after join-room, on either outcome. *)
Lemma on_join_room_outbox now sid roomId username w :
  let w' := on_join_room now sid roomId username w in
  (exists ps msgs to,
     outbox w' = outbox w ++ [ {| recipients := {[sid]};
                                  event := RoomJoined roomId ps msgs |};
                               {| recipients := to;
                                  event := UserJoined username ps |} ])
  \/ outbox w' = outbox w ++ [ {| recipients := {[sid]};
                                  event := Error "Failed to join room" |} ].
Proof.
  unfold on_join_room, run, try_catch.
  destruct (join_room_try now sid roomId username w) as [[[]|] w1] eqn:Htry.
  - left. simpl. apply join_room_reply in Htry as (_ & room & _ & ->). eauto.
  - right. apply join_room_throws_silently in Htry. simpl. by rewrite <- Htry.
Qed.

(** The outbox after disconnect: nothing, or one user-left. *)
Lemma on_disconnect_outbox sid w :
  let w' := on_disconnect sid w in
  outbox w' = outbox w
  \/ exists to u ps, outbox w' = outbox w ++ [ {| recipients := to;
                                                  event := UserLeft u ps |} ].
Proof.
  unfold on_disconnect.
  destruct (sockets w !! sid ≫= sock_roomId) as [r|]; [|by left].
  destruct (sockets w !! sid ≫= sock_username) as [u|]; [|by left].
  destruct (truthy (Some r) && truthy (Some u)); [|by left].
  set (w0 := set_sockets (delete sid) w).
  change (outbox w) with (outbox w0). generalize w0. clear w w0. intros w.
  unfold run, disconnect_try.
  destruct (Room_findOne_cases r w) as [fs [Hf|Hf]].
  - rewrite (try_catch_bind_throw _ _ _ _ _ Hf). by left.
  - rewrite (try_catch_bind_run _ _ _ _ _ _ Hf).
    destruct (rooms w !! r) as [room|]; [|by left].
    destruct (length _ =? 0)%nat.
    + left. unfold try_catch, Room_deleteOne.
      destruct (store_call_cases
        (fun w => (Ok tt, set_rooms (delete r) w)) (set_faults fs w))
        as [fs' [-> | ->]]; done.
    + unfold Room_save. destruct (required r); [|by left].
      destruct (store_call_cases
        (fun w => (Ok tt, set_rooms (insert r
           {| participants := filter (fun p => p ≠ u) (participants room);
              createdAt := createdAt room |}) w)) (set_faults fs w))
        as [fs' [Hs|Hs]].
      * rewrite (try_catch_bind_throw _ _ _ _ _ Hs). by left.
      * rewrite (try_catch_bind_run _ _ _ _ _ _ Hs). right. simpl. eauto.
Qed.

(** X5: a step only appends to the outbox, and when it appends an error
    event, that event is all it appends and its only recipient is the
    connection whose event was being handled: errors are never broadcast
    and never come with another emission of the same handler. *)
Theorem errors_reach_the_caller_only (i : Input) (w : World) :
  exists new,
    outbox (step i w) = outbox w ++ new
    /\ forall e message, e ∈ new -> event e = Error message ->
         exists sid, sender_of i = Some sid
                     /\ recipients e = {[sid]} /\ new = [e].
Proof.
  assert (forall o : list Emission, o = o ++ []) as Hnil
    by (intros o; by rewrite app_nil_r).
  assert (forall (o : list Emission) to ev,
            (forall message, ev ≠ Error message) ->
            forall e message,
              e ∈ [{| recipients := to; event := ev |}] ->
              event e = Error message -> False) as Hquiet.
  { intros o to ev Hev e message ->%list_elem_of_singleton. simpl. apply Hev. }
  destruct i as [sid|now sid r u|now sid r sender text|sid r u t|sid r|sid|fs];
    simpl; try (destruct (connected w sid);
                [|exists []; split; [apply Hnil | by intros ? ? ?%elem_of_nil]]).
  - exists []. split; [by destruct (connected w sid); simpl; rewrite app_nil_r|].
    by intros ? ? ?%elem_of_nil.
  - destruct (on_join_room_outbox now sid r u w)
      as [(ps & msgs & to & ->) | ->]; eexists; (split; [reflexivity|]).
    + intros e message [->|[->|[]%elem_of_nil]%elem_of_cons]%elem_of_cons;
        discriminate.
    + intros e message ->%list_elem_of_singleton _. by exists sid.
  - unfold on_send_message, run, try_catch, send_message_try, mbind, M_bind,
      new_Message, Message_save, store_call, io_to_emit, emit_to, socket_emit,
      emit_to.
    simpl. destruct (Message_valid _); simpl;
      [destruct (faults w) as [|[] fs]; simpl|];
      eexists; (split; [reflexivity|]);
      intros e message ->%list_elem_of_singleton; try discriminate;
      intros _; by exists sid.
  - eexists. split; [reflexivity|].
    intros e message ->%list_elem_of_singleton. discriminate.
  - unfold on_clear_room_chat, run, try_catch, clear_room_chat_try, mbind,
      M_bind, Message_deleteMany, store_call, io_to_emit, emit_to, socket_emit,
      emit_to.
    destruct (faults w) as [|[] fs]; simpl;
      eexists; (split; [reflexivity|]);
      intros e message ->%list_elem_of_singleton; try discriminate;
      intros _; by exists sid.
  - destruct (on_disconnect_outbox sid w) as [-> | (to & u & ps & ->)].
    + exists []. split; [apply Hnil | by intros ? ? ?%elem_of_nil].
    + eexists. split; [reflexivity|].
      intros e message ->%list_elem_of_singleton. discriminate.
  - exists []. split; [apply Hnil | by intros ? ? ?%elem_of_nil].
Qed.

(** ** What join-room and disconnect do to the Room collection, whatever
    their outcome *)

Lemma bind_throw_run {A C} (m : M A) (k : A -> M C) w w1 :
  m w = (Throw, w1) -> (m ≫= k) w = (Throw, w1).
Proof. unfold mbind, M_bind. by intros ->. Qed.

Lemma Room_save_cases roomId room w :
  exists fs,
    Room_save roomId room w = (Throw, set_faults fs w)
    \/ (roomId ≠ ""%string
        /\ Room_save roomId room w
           = (Ok tt, set_rooms (insert roomId room) (set_faults fs w))).
Proof.
  unfold Room_save. destruct (required roomId) eqn:Hreq.
  - assert (roomId ≠ ""%string) by (by apply String.eqb_neq, negb_true_iff).
    destruct (store_call_cases
      (fun w => (Ok tt, set_rooms (insert roomId room) w)) w) as [fs [H1|H1]];
      exists fs; [by left | by right].
  - exists (faults w). left. by rewrite set_faults_id.
Qed.

(** join-room leaves the Room collection alone, or creates the room with
    the username as only participant, or appends the username to the list
    of the room; and this also when the handler throws later on. *)
Lemma on_join_room_rooms_any now sid roomId username w :
  let w' := on_join_room now sid roomId username w in
  rooms w' = rooms w
  \/ (roomId ≠ ""%string /\ rooms w !! roomId = None
      /\ rooms w' = <[roomId := {| participants := [username];
                                   createdAt := now |}]> (rooms w))
  \/ (exists room,
        roomId ≠ ""%string /\ rooms w !! roomId = Some room
        /\ (username ∉ participants room)
        /\ rooms w' = <[roomId := {| participants := participants room ++ [username];
                                     createdAt := createdAt room |}]> (rooms w)).
Proof.
  pose (rest := fun room : Room =>
    socket_join sid roomId ;;
    socket_bind sid roomId username ;;
    msgs ← Query_exec (recent_query roomId);
    socket_emit sid (RoomJoined roomId (participants room) msgs) ;;
    socket_to_emit sid roomId (UserJoined username (participants room))).
  pose (failed := socket_emit sid (Error "Failed to join room")).
  assert (forall room w1,
            rooms (try_catch (rest room) failed w1).2 = rooms w1) as Hrest.
  { intros room w1.
    exact (preserves_try_catch rooms (rest room) failed
             (join_room_rest_rooms sid roomId username room)
             (emit_to_rooms _ _) w1). }
  assert (forall room w1,
    let saved :=
      (try_catch ((Room_save roomId room ≫= fun _ => mret room) ≫= rest)
                 failed w1).2 in
    rooms saved = rooms w1
    \/ (roomId ≠ ""%string /\ rooms saved = <[roomId := room]> (rooms w1)))
    as Hsave.
  { intros room w1 saved. subst saved.
    destruct (Room_save_cases roomId room w1) as [fs [Hs|[Hr Hs]]].
    - left. rewrite (try_catch_bind_throw _ _ _ _ (set_faults fs w1)); [done|].
      by apply bind_throw_run.
    - right. split; [done|].
      rewrite (try_catch_bind_run _ _ _ _ room
                 (set_rooms (insert roomId room) (set_faults fs w1))).
      + exact (Hrest room _).
      + by rewrite (bind_run _ _ _ _ _ Hs). }
  unfold on_join_room, join_room_try, run. fold failed.
  destruct (Room_findOne_cases roomId w) as [fs [Hf|Hf]].
  - left. by rewrite (try_catch_bind_throw _ _ _ _ _ Hf).
  - rewrite (try_catch_bind_run _ _ _ _ _ _ Hf).
    destruct (rooms w !! roomId) as [room|] eqn:Hroom.
    + case_bool_decide as Hin.
      * left. rewrite (try_catch_bind_run _ _ _ _ room (set_faults fs w)) by done.
        exact (Hrest room (set_faults fs w)).
      * destruct (Hsave {| participants := participants room ++ [username];
                           createdAt := createdAt room |} (set_faults fs w))
          as [Hs|[Hr Hs]]; [left; exact Hs|].
        right. right. exists room. repeat split; done.
    + destruct (Hsave {| participants := [username]; createdAt := now |}
                  (set_faults fs w)) as [Hs|[Hr Hs]]; [left; exact Hs|].
      right. left. repeat split; done.
Qed.

(** disconnect leaves the Room collection alone, or deletes the record of
    the room the connection is bound to, or replaces its participant list
    by the list without the connection's username. *)
Lemma on_disconnect_rooms_any sid w :
  let w' := on_disconnect sid w in
  rooms w' = rooms w
  \/ exists s r u room,
       sockets w !! sid = Some s
       /\ sock_roomId s = Some r /\ sock_username s = Some u
       /\ rooms w !! r = Some room
       /\ (rooms w' = delete r (rooms w)
           \/ rooms w' = <[r := {| participants :=
                                     filter (fun p => p ≠ u) (participants room);
                                   createdAt := createdAt room |}]> (rooms w)).
Proof.
  unfold on_disconnect. cbv zeta.
  destruct (sockets w !! sid) as [s|] eqn:Hs; [|by left]. simpl.
  destruct (sock_roomId s) as [r|] eqn:Hr; [|by left].
  destruct (sock_username s) as [u|] eqn:Hu; [|by left].
  case_match; [|by left].
  set (w0 := set_sockets (delete sid) w).
  unfold run, disconnect_try.
  destruct (Room_findOne_cases r w0) as [fs [Hf|Hf]].
  - left. by rewrite (try_catch_bind_throw _ _ _ _ _ Hf).
  - rewrite (try_catch_bind_run _ _ _ _ _ _ Hf). simpl.
    destruct (rooms w !! r) as [room|] eqn:Hroom; [|by left].
    destruct (length _ =? 0)%nat.
    + unfold try_catch, Room_deleteOne.
      destruct (store_call_cases
        (fun w => (Ok tt, set_rooms (delete r) w)) (set_faults fs w0))
        as [fs' [-> | ->]]; [by left|].
      right. exists s, r, u, room. repeat split; try done. by left.
    + destruct (Room_save_cases r
        {| participants := filter (fun p => p ≠ u) (participants room);
           createdAt := createdAt room |} (set_faults fs w0))
        as [fs' [Hsv|[_ Hsv]]].
      * left. by rewrite (try_catch_bind_throw _ _ _ _ _ Hsv).
      * rewrite (try_catch_bind_run _ _ _ _ _ _ Hsv).
        right. exists s, r, u, room. repeat split; try done. by right.
Qed.


(** X2: a step changes at most one Room record: the record of the joined
    room for join-room, the record of the room the connection is bound to
    for disconnect, and none for every other input.  All other Room
    records are as they were, also when the handler throws. *)
Theorem step_touches_one_room_record (i : Input) (w : World) (r : string) :
  room_of i w ≠ Some r ->
  rooms (step i w) !! r = rooms w !! r.
Proof.
  intros Hr. destruct (writes_rooms i) eqn:Hi;
    [|by rewrite rooms_frame_step].
  destruct i as [sid|now sid r0 u|now sid r0 sender text|sid r0 u t|sid r0|sid|fs];
    try discriminate Hi; simpl in *; destruct (connected w sid); try done.
  - assert (r0 ≠ r) as Hne by congruence.
    destruct (on_join_room_rooms_any now sid r0 u w)
      as [-> | [(_ & _ & ->) | (room & _ & _ & _ & ->)]];
      [done | by rewrite lookup_insert_ne..].
  - destruct (on_disconnect_rooms_any sid w)
      as [-> | (s & r0 & u & room & Hs & Hr0 & _ & _ & [-> | ->])]; [done|..];
      rewrite Hs in Hr; simpl in Hr; rewrite Hr0 in Hr;
      assert (r0 ≠ r) as Hne by congruence.
    + by rewrite lookup_delete_ne.
    + by rewrite lookup_insert_ne.
Qed.

Lemma step_touches_one_room_record_witness :
  let w := steps [ Connection 1; Connection 2; JoinRoom 10 1 "r1" "alice";
                   JoinRoom 20 2 "r2" "bob" ] initial in
  rooms (step (Disconnect 2) w) !! "r1" = rooms w !! "r1"
  /\ rooms (step (Disconnect 2) w) !! "r2" = None
  /\ rooms (step (JoinRoom 30 2 "r2" "carol") w) !! "r1" = rooms w !! "r1".
Proof.
  intros w. split; [|split; [vm_compute; reflexivity|]].
  - apply (step_touches_one_room_record (Disconnect 2) w "r1").
    vm_compute. discriminate.
  - apply (step_touches_one_room_record (JoinRoom 30 2 "r2" "carol") w "r1").
    discriminate.
Defined.

(** X6: as long as a Room record exists, no step changes its createdAt,
    and a step changes its participant list in two ways only: by
    appending one username the list did not have, or by removing a
    username. *)
Theorem step_keeps_room_identity
    (i : Input) (w : World) (r : string) (room room' : Room) :
  rooms w !! r = Some room ->
  rooms (step i w) !! r = Some room' ->
  createdAt room' = createdAt room
  /\ (participants room' = participants room
      \/ (exists u, (u ∉ participants room)
                    /\ participants room' = participants room ++ [u])
      \/ (exists u, participants room'
                    = filter (fun p => p ≠ u) (participants room))).
Proof.
  intros Hroom Hroom'.
  assert (room' = room -> createdAt room' = createdAt room
            /\ (participants room' = participants room
                \/ (exists u, (u ∉ participants room)
                      /\ participants room' = participants room ++ [u])
                \/ (exists u, participants room'
                      = filter (fun p => p ≠ u) (participants room))))
    as Hsame by (intros ->; auto).
  destruct (writes_rooms i) eqn:Hi;
    [|rewrite rooms_frame_step in Hroom' by done; apply Hsame; congruence].
  destruct i as [sid|now sid r0 u|now sid r0 sender text|sid r0 u t|sid r0|sid|fs];
    try discriminate Hi; simpl in *;
    (destruct (connected w sid); [|apply Hsame; congruence]).
  - destruct (on_join_room_rooms_any now sid r0 u w)
      as [Heq | [(_ & Hnone & Heq) | (room0 & _ & Hsome & Hnew & Heq)]];
      rewrite Heq in Hroom'; [apply Hsame; congruence|..];
      (destruct (decide (r0 = r)) as [->|Hne];
       [|rewrite lookup_insert_ne in Hroom' by done; apply Hsame; congruence]).
    + congruence.
    + rewrite lookup_insert_eq in Hroom'. injection Hroom' as <-.
      assert (room0 = room) as -> by congruence. simpl.
      split; [done|]. right. left. by exists u.
  - destruct (on_disconnect_rooms_any sid w)
      as [Heq | (s & r0 & u & room0 & _ & _ & _ & Hsome & [Heq | Heq])];
      rewrite Heq in Hroom'; [apply Hsame; congruence|..];
      (destruct (decide (r0 = r)) as [->|Hne]).
    + by rewrite lookup_delete_eq in Hroom'.
    + rewrite lookup_delete_ne in Hroom' by done. apply Hsame. congruence.
    + rewrite lookup_insert_eq in Hroom'. injection Hroom' as <-.
      assert (room0 = room) as -> by congruence. simpl.
      split; [done|]. right. right. by exists u.
    + rewrite lookup_insert_ne in Hroom' by done. apply Hsame. congruence.
Qed.

Lemma step_keeps_room_identity_witness :
  let w := steps [ Connection 1; Connection 2; JoinRoom 10 1 "r1" "alice" ]
             initial in
  createdAt <$> rooms (step (JoinRoom 99 2 "r1" "bob") w) !! "r1" = Some 10.
Proof.
  intros w.
  destruct (step_keeps_room_identity (JoinRoom 99 2 "r1" "bob") w "r1"
    {| participants := ["alice"]; createdAt := 10 |}
    {| participants := ["alice"; "bob"]; createdAt := 10 |}) as [Hc _].
  - vm_compute. reflexivity.
  - vm_compute. reflexivity.
  - vm_compute. reflexivity.
Defined.

(** ** Connections: binding, subscription, removal *)

Lemma elem_of_members w sid roomId :
  sid ∈ members w roomId
  <-> exists s, sockets w !! sid = Some s /\ roomId ∈ sock_rooms s.
Proof.
  unfold members. rewrite elem_of_dom. unfold is_Some.
  setoid_rewrite map_lookup_filter_Some. naive_solver.
Qed.

(** The connections after a successful join: the caller is subscribed to
    the room's group and bound to the room and the username. *)
Lemma join_room_sockets now sid roomId username w w' :
  join_room_try now sid roomId username w = (Ok tt, w') ->
  sockets w' =
    alter (fun s => {| sock_roomId := Some roomId; sock_username := Some username;
                       sock_rooms := {[roomId]} ∪ sock_rooms s |}) sid (sockets w).
Proof.
  unfold join_room_try. intros H.
  apply bind_ok in H as (found & w1 & Hfind & H).
  apply store_call_ok in Hfind as [fs1 [= <- <-]].
  apply bind_ok in H as (room & w2 & Hroom & H).
  assert (sockets w2 = sockets w) as Hs2.
  { assert (preserves sockets (Room_save roomId
              {| participants := [username]; createdAt := now |} ≫=
              fun _ => mret {| participants := [username]; createdAt := now |}))
      as Hnew.
    { apply preserves_bind; [|intros; apply preserves_ret].
      by apply view_Room_save. }
    simpl in Hroom. destruct (rooms w !! roomId) as [room0|].
    - case_bool_decide; [by injection Hroom as <- <-|].
      pose proof (preserves_bind sockets
        (Room_save roomId {| participants := participants room0 ++ [username];
                             createdAt := createdAt room0 |})
        (fun _ => mret {| participants := participants room0 ++ [username];
                          createdAt := createdAt room0 |})
        (view_Room_save sockets sockets_oracle_free (fun _ _ => eq_refl) _ _)
        (fun _ => preserves_ret sockets _) (set_faults fs1 w)) as Hp.
      by rewrite Hroom in Hp.
    - specialize (Hnew (set_faults fs1 w)). by rewrite Hroom in Hnew. }
  apply bind_ok in H as ([] & w3 & [= <-] & H).
  apply bind_ok in H as ([] & w4 & [= <-] & H).
  apply bind_ok in H as (msgs & w5 & Hq & H).
  apply store_call_ok in Hq as [fs3 [= <- <-]].
  apply bind_ok in H as ([] & w6 & [= <-] & [= <-]).
  simpl. rewrite Hs2. apply map_eq. intros sid'.
  destruct (decide (sid = sid')) as [<-|Hne];
    [rewrite !lookup_alter_eq | by rewrite !lookup_alter_ne].
  by destruct (sockets w !! sid).
Qed.

(** X7: a successful join-room binds the calling connection to the room
    and the username and subscribes it to the room's broadcast group,
    keeping the groups it was subscribed to before; no other connection
    changes. *)
Theorem join_room_binds_and_subscribes
    (w : World) (now : Z) (sid : nat) (s : Socket) (roomId username : string) :
  sockets w !! sid = Some s ->
  (join_room_try now sid roomId username w).1 = Ok tt ->
  let w' := on_join_room now sid roomId username w in
  sockets w' !! sid = Some {| sock_roomId := Some roomId;
                              sock_username := Some username;
                              sock_rooms := {[roomId]} ∪ sock_rooms s |}
  /\ sid ∈ members w' roomId
  /\ (forall r, sid ∈ members w r -> sid ∈ members w' r)
  /\ (forall sid', sid' ≠ sid -> sockets w' !! sid' = sockets w !! sid').
Proof.
  intros Hs Hok w'.
  assert (join_room_try now sid roomId username w = (Ok tt, w')) as Htry.
  { subst w'. unfold on_join_room, run, try_catch.
    by destruct (join_room_try now sid roomId username w) as [[[]|] w1]. }
  pose proof (join_room_sockets _ _ _ _ _ _ Htry) as Hsockets.
  assert (sockets w' !! sid = Some {| sock_roomId := Some roomId;
                                      sock_username := Some username;
                                      sock_rooms := {[roomId]} ∪ sock_rooms s |})
    as Hmine by (by rewrite Hsockets, lookup_alter_eq, Hs).
  split; [done|]. split; [|split].
  - apply elem_of_members. eexists. split; [exact Hmine|]. simpl. set_solver.
  - intros r (s0 & Hs0 & Hin)%elem_of_members.
    apply elem_of_members. eexists. split; [exact Hmine|]. simpl.
    assert (s0 = s) as -> by congruence. set_solver.
  - intros sid' Hne. by rewrite Hsockets, lookup_alter_ne.
Qed.

Lemma join_room_binds_and_subscribes_witness :
  let w := steps [ Connection 1; JoinRoom 10 1 "r1" "alice" ] initial in
  let w' := on_join_room 20 1 "r2" "al" w in
  (1%nat ∈ members w' "r2") /\ (1%nat ∈ members w' "r1").
Proof.
  intros w w'.
  destruct (join_room_binds_and_subscribes w 20 1
    {| sock_roomId := Some "r1"; sock_username := Some "alice";
       sock_rooms := {["r1"]} ∪ ∅ |} "r2" "al") as (_ & Hnew & Hold & _).
  - vm_compute. reflexivity.
  - vm_compute. reflexivity.
  - split; [exact Hnew|]. apply Hold.
    apply (bool_decide_unpack _). vm_compute. exact I.
Defined.

(** The connections after a disconnect: the connection is gone and no
    other has changed, whatever the handler did. *)
Lemma on_disconnect_sockets sid w :
  sockets (on_disconnect sid w) = delete sid (sockets w).
Proof.
  unfold on_disconnect.
  destruct (sockets w !! sid ≫= sock_roomId) as [r|]; [|done].
  destruct (sockets w !! sid ≫= sock_username) as [u|]; [|done].
  destruct (truthy (Some r) && truthy (Some u)); [|done].
  change (delete sid (sockets w)) with (sockets (set_sockets (delete sid) w)).
  apply preserves_run, preserves_try_catch; [|apply preserves_ret].
  by apply view_disconnect_try.
Qed.

(** X8: a connection that joins a second room is bound to the second room
    only: its disconnect leaves the record of every other room as it was.
    The username it used in a room joined earlier stays in that room's
    participant list. *)
Theorem second_join_orphans_earlier_room
    (w : World) (now : Z) (sid : nat) (s : Socket) (r2 u2 r1 : string) :
  sockets w !! sid = Some s ->
  (join_room_try now sid r2 u2 w).1 = Ok tt ->
  r1 ≠ r2 ->
  rooms (on_disconnect sid (on_join_room now sid r2 u2 w)) !! r1 = rooms w !! r1.
Proof.
  intros Hs Hok Hne.
  set (w1 := on_join_room now sid r2 u2 w).
  assert (join_room_try now sid r2 u2 w = (Ok tt, w1)) as Htry.
  { subst w1. unfold on_join_room, run, try_catch.
    by destruct (join_room_try now sid r2 u2 w) as [[[]|] w0]. }
  assert (rooms w1 !! r1 = rooms w !! r1) as <-.
  { rewrite (join_room_rooms _ _ _ _ _ _ Htry).
    destruct (rooms w !! r2); [case_bool_decide; [done|]|];
      by rewrite lookup_insert_ne. }
  pose proof (join_room_sockets _ _ _ _ _ _ Htry) as Hsockets.
  destruct (on_disconnect_rooms_any sid w1)
    as [-> | (s1 & r & u & room & Hs1 & Hr & _ & _ & [-> | ->])]; [done|..];
    rewrite Hsockets, lookup_alter_eq, Hs in Hs1; injection Hs1 as <-;
    simpl in Hr; injection Hr as <-.
  - by rewrite lookup_delete_ne.
  - by rewrite lookup_insert_ne.
Qed.

Lemma second_join_orphans_earlier_room_witness :
  let w := steps [ Connection 1; JoinRoom 10 1 "r1" "alice" ] initial in
  participants <$>
    rooms (on_disconnect 1 (on_join_room 20 1 "r2" "alice" w)) !! "r1"
  = Some ["alice"]%string.
Proof.
  intros w.
  rewrite (second_join_orphans_earlier_room w 20 1
    {| sock_roomId := Some "r1"; sock_username := Some "alice";
       sock_rooms := {["r1"]} ∪ ∅ |} "r2" "alice" "r1").
  - vm_compute. reflexivity.
  - vm_compute. reflexivity.
  - vm_compute. reflexivity.
  - discriminate.
Defined.

(** X9: the participant list goes by username, not by connection.  When
    two connections are bound to the same room under the same username
    and one of them disconnects on a healthy store, the other connection
    stays bound and subscribed as it was, but the username is in the
    room's participant list no more, if the room still has a record. *)
Theorem disconnect_removes_shared_username
    (w : World) (sid1 sid2 : nat) (s1 s2 : Socket) (r u : string) (room : Room) :
  sid1 ≠ sid2 ->
  sockets w !! sid1 = Some s1 ->
  sock_roomId s1 = Some r -> sock_username s1 = Some u ->
  sockets w !! sid2 = Some s2 ->
  sock_roomId s2 = Some r -> sock_username s2 = Some u ->
  r ≠ ""%string -> u ≠ ""%string ->
  healthy w ->
  rooms w !! r = Some room ->
  let w' := on_disconnect sid1 w in
  sockets w' !! sid2 = Some s2
  /\ forall room', rooms w' !! r = Some room' -> u ∉ participants room'.
Proof.
  intros Hne Hs1 Hr1 Hu1 Hs2 _ _ Hr Hu Hw Hroom w'. split.
  - subst w'. by rewrite on_disconnect_sockets, lookup_delete_ne.
  - destruct (on_disconnect_healthy w sid1 s1 r u room) as (_ & _ & Hrooms);
      try done.
    fold w' in Hrooms. intros room' Hroom'.
    destruct (length _ =? 0)%nat; destruct Hrooms as [Hrooms _];
      rewrite Hrooms in Hroom'.
    + by rewrite lookup_delete_eq in Hroom'.
    + rewrite lookup_insert_eq in Hroom'. injection Hroom' as <-. simpl.
      intros [Hin _]%list_elem_of_filter. done.
Qed.

Lemma disconnect_removes_shared_username_witness :
  let w := steps [ Connection 1; Connection 2; Connection 3;
                   JoinRoom 10 1 "r1" "alice"; JoinRoom 20 2 "r1" "alice";
                   JoinRoom 30 3 "r1" "bob" ] initial in
  participants <$> rooms (on_disconnect 1 w) !! "r1" = Some ["bob"]%string
  /\ (2%nat ∈ members (on_disconnect 1 w) "r1").
Proof.
  intros w.
  destruct (disconnect_removes_shared_username w 1 2
    {| sock_roomId := Some "r1"; sock_username := Some "alice";
       sock_rooms := {["r1"]} ∪ ∅ |}
    {| sock_roomId := Some "r1"; sock_username := Some "alice";
       sock_rooms := {["r1"]} ∪ ∅ |} "r1" "alice"
    {| participants := ["alice"; "bob"]; createdAt := 10 |}) as [Hs2 _].
  - discriminate.
  - vm_compute. reflexivity.
  - reflexivity.
  - reflexivity.
  - vm_compute. reflexivity.
  - reflexivity.
  - reflexivity.
  - discriminate.
  - discriminate.
  - apply Forall_nil_2.
  - vm_compute. reflexivity.
  - split; [vm_compute; reflexivity|].
    apply elem_of_members. eexists. split; [exact Hs2|]. simpl. set_solver.
Defined.

(** ** typing and the REST routes *)

(** X10: typing stores nothing and binds nothing: both collections and
    the connections are as before.  It makes one user-typing emission with
    the username and flag of the payload, which every subscriber of the
    room's group other than the sender receives; the sender receives
    nothing, and no error event is ever made. *)
Theorem typing_relays_to_the_others
    (w : World) (sid : nat) (roomId username : string) (isTyping : bool) :
  let w' := on_typing sid roomId username isTyping w in
  rooms w' = rooms w /\ messages w' = messages w /\ sockets w' = sockets w
  /\ outbox w' = outbox w ++ [ {| recipients := members w roomId ∖ {[sid]};
                                  event := UserTyping username isTyping |} ]
  /\ delivered w' sid = delivered w sid
  /\ (forall sid', sid' ∈ members w roomId -> sid' ≠ sid ->
      delivered w' sid' = delivered w sid' ++ [UserTyping username isTyping]).
Proof.
  intros w'. subst w'. unfold on_typing, run, socket_to_emit, emit_to, delivered.
  simpl. repeat split.
  - rewrite filter_app, fmap_app, filter_cons, filter_nil. simpl.
    rewrite decide_False; [by rewrite app_nil_r|].
    intros [_ Hn]%elem_of_difference. apply Hn. by apply elem_of_singleton.
  - intros sid' Hmem Hne.
    rewrite filter_app, fmap_app, filter_cons, filter_nil. simpl.
    rewrite decide_True; [done|].
    apply elem_of_difference. split; [done|]. by apply not_elem_of_singleton.
Qed.

(** X11: the two GET routes are read-only: neither collection, no
    connection and not the outbox changes, whatever the answer.  The answer
    is 500 with Server error exactly when the store call fails; otherwise
    get-room answers with the Room record if there is one and with 404
    Room not found if there is none, and get-room-messages answers with a
    list. *)
Theorem rest_routes_read_only (w : World) (roomId : string) :
  let failed := head (faults w) = Some true in
  let '(room_answer, w1) := get_room roomId w in
  let '(messages_answer, w2) := get_room_messages roomId w in
  (rooms w1 = rooms w /\ messages w1 = messages w
   /\ sockets w1 = sockets w /\ outbox w1 = outbox w)
  /\ (rooms w2 = rooms w /\ messages w2 = messages w
      /\ sockets w2 = sockets w /\ outbox w2 = outbox w)
  /\ (failed -> room_answer = Status 500 "Server error"
                /\ messages_answer = Status 500 "Server error")
  /\ (~ failed ->
      room_answer = match rooms w !! roomId with
                    | Some room => RoomJson roomId room
                    | None => Status 404 "Room not found"
                    end
      /\ exists msgs, messages_answer = MessagesJson msgs).
Proof.
  unfold get_room, get_room_messages, Room_findOne, Query_exec, store_call.
  destruct (faults w) as [|[] fs]; simpl.
  - destruct (rooms w !! roomId); repeat split; try done; eauto.
  - repeat split; try done.
  - destruct (rooms w !! roomId); repeat split; try done; eauto.
Qed.

(** ** Round trips on a healthy store *)

(** A store call on a healthy store runs and leaves the store healthy. *)
Lemma triple_store_call_healthy {A} (op : M A) Q E :
  triple healthy op Q E -> triple healthy (store_call op) Q E.
Proof.
  intros Hop w Hw.
  destruct (store_call_healthy op w Hw) as (fs & Hfs & ->). by apply Hop.
Qed.

Lemma get_room_messages_healthy w roomId :
  healthy w ->
  (get_room_messages roomId w).1 = MessagesJson (ascending roomId (messages w)).
Proof.
  intros Hw. unfold get_room_messages, Query_exec.
  by destruct (store_call_healthy
    (fun w => (Ok (exec (sort [("timestamp", 1)] (Message_find roomId))
                        (messages w)), w)) w Hw) as (fs & _ & ->).
Qed.

Lemma on_send_message_healthy now sid roomId sender text w :
  healthy w ->
  roomId ≠ ""%string -> sender ≠ ""%string -> text ≠ ""%string ->
  let w' := on_send_message now sid roomId sender text w in
  healthy w'
  /\ messages w' = messages w ++
       [ {| msg_id := next_id w; msg_roomId := roomId; msg_sender := sender;
            msg_text := text; msg_timestamp := now |} ].
Proof.
  intros Hw Hr Hs Ht.
  unfold on_send_message, run, try_catch, send_message_try, mbind, M_bind,
    new_Message, Message_save, Message_valid, required, store_call,
    io_to_emit, emit_to, socket_emit, emit_to, healthy in *.
  simpl.
  apply String.eqb_neq in Hr, Hs, Ht. rewrite Hr, Hs, Ht. simpl.
  destruct (faults w) as [|[] fs] eqn:Hf; simpl; rewrite ?Hf.
  - split; [apply Forall_nil_2|done].
  - by inversion Hw.
  - split; [by inversion Hw|done].
Qed.

Lemma on_clear_room_chat_healthy sid roomId w :
  healthy w ->
  let w' := on_clear_room_chat sid roomId w in
  healthy w'
  /\ messages w' = filter (fun m => msg_roomId m ≠ roomId) (messages w).
Proof.
  intros Hw.
  unfold on_clear_room_chat, run, try_catch, clear_room_chat_try, mbind, M_bind,
    Message_deleteMany, store_call, io_to_emit, emit_to, socket_emit, emit_to,
    healthy in *.
  destruct (faults w) as [|[] fs] eqn:Hf; simpl; rewrite ?Hf.
  - split; [apply Forall_nil_2|done].
  - by inversion Hw.
  - split; [by inversion Hw|done].
Qed.

Lemma in_room_app roomId l1 l2 :
  in_room roomId (l1 ++ l2) = in_room roomId l1 ++ in_room roomId l2.
Proof. apply filter_app. Qed.

(** X12: on a healthy store, a send-message with non-empty roomId, sender
    and text followed by get-room-messages on that room answers with a list
    that holds the new Message, with the server's clock reading as its
    timestamp, next to the Messages the room had, and nothing else; the
    answer for any other room is what it was before. *)
Theorem send_then_get_room_messages
    (w : World) (now : Z) (sid : nat) (roomId sender text : string) :
  healthy w ->
  roomId ≠ ""%string -> sender ≠ ""%string -> text ≠ ""%string ->
  let w' := on_send_message now sid roomId sender text w in
  let m := {| msg_id := next_id w; msg_roomId := roomId; msg_sender := sender;
              msg_text := text; msg_timestamp := now |} in
  (exists msgs,
     (get_room_messages roomId w').1 = MessagesJson msgs
     /\ m ∈ msgs
     /\ msgs ≡ₚ in_room roomId (messages w) ++ [m])
  /\ (forall r, r ≠ roomId ->
      (get_room_messages r w').1 = (get_room_messages r w).1).
Proof.
  intros Hw Hr Hs Ht w' m.
  destruct (on_send_message_healthy now sid roomId sender text w)
    as [Hw' Hm]; try done.
  fold w' m in Hw', Hm. split.
  - exists (ascending roomId (messages w')).
    assert (ascending roomId (messages w') ≡ₚ in_room roomId (messages w) ++ [m])
      as Hperm.
    { rewrite ascending_perm, Hm, in_room_app. f_equiv.
      unfold in_room. rewrite filter_cons, decide_True by done. done. }
    split; [by apply get_room_messages_healthy|]. split; [|done].
    rewrite Hperm. apply elem_of_app. right. apply list_elem_of_here.
  - intros r Hne. rewrite !get_room_messages_healthy by done.
    rewrite !ascending_unfold, Hm, in_room_app.
    unfold in_room at 2. rewrite filter_cons, decide_False by (simpl; congruence).
    by rewrite filter_nil, app_nil_r.
Qed.

Lemma send_then_get_room_messages_witness :
  let w := steps [ Connection 1; SendMessage 10 1 "r1" "alice" "hi" ] initial in
  (get_room_messages "r1" (on_send_message 5 1 "r1" "bob" "yo" w)).1
  = MessagesJson
      [ {| msg_id := 1; msg_roomId := "r1"; msg_sender := "bob";
           msg_text := "yo"; msg_timestamp := 5 |};
        {| msg_id := 0; msg_roomId := "r1"; msg_sender := "alice";
           msg_text := "hi"; msg_timestamp := 10 |} ]
  /\ (get_room_messages "r2" (on_send_message 5 1 "r1" "bob" "yo" w)).1
     = (get_room_messages "r2" w).1.
Proof.
  intros w. split; [vm_compute; reflexivity|].
  apply (send_then_get_room_messages w 5 1 "r1" "bob" "yo");
    [apply Forall_nil_2 | discriminate..].
Defined.

Lemma in_room_cleared roomId l :
  in_room roomId (filter (fun m => msg_roomId m ≠ roomId) l) = [].
Proof.
  unfold in_room. induction l as [|m l IH]; [done|].
  rewrite filter_cons. case_decide; [|done].
  by rewrite filter_cons, decide_False.
Qed.

(** X13: on a healthy store, get-room-messages on a room whose chat has
    just been cleared answers with the empty list, and answers for any
    other room with what it answered before. *)
Theorem clear_then_get_room_messages (w : World) (sid : nat) (roomId : string) :
  healthy w ->
  let w' := on_clear_room_chat sid roomId w in
  (get_room_messages roomId w').1 = MessagesJson []
  /\ (forall r, r ≠ roomId ->
      (get_room_messages r w').1 = (get_room_messages r w).1).
Proof.
  intros Hw w'.
  destruct (on_clear_room_chat_healthy sid roomId w Hw) as [Hw' Hm].
  fold w' in Hw', Hm. split.
  - rewrite get_room_messages_healthy by done.
    by rewrite ascending_unfold, Hm, in_room_cleared.
  - intros r Hne. rewrite !get_room_messages_healthy by done.
    rewrite !ascending_unfold, Hm. unfold in_room.
    rewrite list_filter_filter. do 2 f_equal. apply list_filter_iff.
    intros m. split; [by intros [? _] | intros Heq; split; [done|congruence]].
Qed.

Lemma clear_then_get_room_messages_witness :
  let w := steps [ Connection 1; SendMessage 10 1 "r1" "alice" "hi";
                   SendMessage 20 1 "r2" "alice" "yo" ] initial in
  (get_room_messages "r1" (on_clear_room_chat 1 "r1" w)).1 = MessagesJson []
  /\ (get_room_messages "r1" w).1 ≠ MessagesJson [].
Proof.
  intros w. split; [|vm_compute; discriminate].
  apply (clear_then_get_room_messages w 1 "r1"). apply Forall_nil_2.
Defined.

(** On a healthy store a join-room with a non-empty roomId completes. *)
Lemma join_room_healthy now sid roomId username :
  roomId ≠ ""%string ->
  triple healthy (join_room_try now sid roomId username)
    (fun _ => healthy) (fun _ => False).
Proof.
  intros Hr.
  assert (forall room, triple healthy (Room_save roomId room ≫= fun _ => mret room)
                         (fun _ => healthy) (fun _ => False)) as Hsave.
  { intros room. apply (triple_bind _ _ _ (fun _ => healthy)).
    - unfold Room_save, required.
      apply String.eqb_neq in Hr. rewrite Hr. simpl.
      apply triple_store_call_healthy. by intros w Hw.
    - intros []. by apply triple_ret. }
  unfold join_room_try.
  apply (triple_bind _ _ _ (fun _ => healthy)).
  { apply triple_store_call_healthy. by intros w Hw. }
  intros found. apply (triple_bind _ _ _ (fun _ => healthy)).
  { destruct found as [room|]; [|apply Hsave].
    case_bool_decide; [by apply triple_ret | apply Hsave]. }
  intros room.
  apply (triple_bind _ _ _ (fun _ => healthy)); [by intros w Hw|]. intros [].
  apply (triple_bind _ _ _ (fun _ => healthy)); [by intros w Hw|]. intros [].
  apply (triple_bind _ _ _ (fun _ => healthy)).
  { apply triple_store_call_healthy. by intros w Hw. }
  intros msgs.
  apply (triple_bind _ _ _ (fun _ => healthy)); [by intros w Hw|]. intros [].
  by intros w Hw.
Qed.

(** X14: on a healthy store, a join-room with a non-empty roomId
    completes, and get-room on that roomId then answers with the Room
    record; the username is in its participant list, and the room-joined
    reply to the caller carries the same participant list. *)
Theorem join_then_get_room
    (w : World) (now : Z) (sid : nat) (roomId username : string) :
  healthy w ->
  roomId ≠ ""%string ->
  let w' := on_join_room now sid roomId username w in
  exists room msgs,
    (get_room roomId w').1 = RoomJson roomId room
    /\ username ∈ participants room
    /\ RoomJoined roomId (participants room) msgs ∈ delivered w' sid.
Proof.
  intros Hw Hr w'.
  pose proof (join_room_healthy now sid roomId username Hr w Hw) as Hjoin.
  destruct (join_room_try now sid roomId username w) as [[[]|] w1] eqn:Htry;
    [|done].
  assert (w' = w1) as ->
    by (subst w'; unfold on_join_room, run, try_catch; by rewrite Htry).
  destruct (join_room_reply _ _ _ _ _ _ Htry) as (_ & room & Hroom & Hout).
  exists room, (exec (recent_query roomId) (messages w)).
  split; [by rewrite get_room_healthy, Hroom|]. split.
  - pose proof (join_room_rooms _ _ _ _ _ _ Htry) as Hrooms.
    rewrite Hrooms in Hroom.
    destruct (rooms w !! roomId) as [room0|] eqn:Hold.
    + case_bool_decide as Hin.
      * by assert (room0 = room) as <- by congruence.
      * rewrite lookup_insert_eq in Hroom. injection Hroom as <-. simpl.
        apply elem_of_app. right. apply list_elem_of_here.
    + rewrite lookup_insert_eq in Hroom. injection Hroom as <-.
      apply list_elem_of_here.
  - unfold delivered. rewrite Hout, filter_app, fmap_app.
    apply elem_of_app. right.
    rewrite filter_cons, decide_True by (simpl; by apply elem_of_singleton).
    simpl. apply list_elem_of_here.
Qed.

Lemma join_then_get_room_witness :
  let w := steps [ Connection 1; Connection 2; JoinRoom 10 1 "r1" "alice" ]
             initial in
  exists room msgs,
    (get_room "r1" (on_join_room 20 2 "r1" "bob" w)).1 = RoomJson "r1" room
    /\ "bob"%string ∈ participants room
    /\ RoomJoined "r1" (participants room) msgs
       ∈ delivered (on_join_room 20 2 "r1" "bob" w) 2.
Proof.
  intros w. apply (join_then_get_room w 20 2 "r1" "bob").
  - apply Forall_nil_2.
  - discriminate.
Defined.



(** ** join-room that fails *)

(** X16: join-room is not atomic.  When the store answers the two Room
    calls of a join that has to write (the room is new, or does not list
    the username yet) and then fails the Message query, the caller gets
    the error event and nothing else is emitted, but the username is in
    the room's participant list and the connection is bound and subscribed
    as after a successful join. *)
Theorem join_room_fails_after_saving
    (w : World) (now : Z) (sid : nat) (s : Socket) (roomId username : string)
    (fs : list bool) :
  sockets w !! sid = Some s ->
  roomId ≠ ""%string ->
  (forall room, rooms w !! roomId = Some room -> username ∉ participants room) ->
  faults w = false :: false :: true :: fs ->
  let w' := on_join_room now sid roomId username w in
  participants <$> rooms w' !! roomId
    = Some (match rooms w !! roomId with
            | Some room => participants room ++ [username]
            | None => [username]
            end)
  /\ sockets w' !! sid = Some {| sock_roomId := Some roomId;
                                 sock_username := Some username;
                                 sock_rooms := {[roomId]} ∪ sock_rooms s |}
  /\ outbox w' = outbox w ++ [ {| recipients := {[sid]};
                                  event := Error "Failed to join room" |} ].
Proof.
  intros Hs Hr Hnew Hf w'. subst w'.
  apply String.eqb_neq in Hr.
  unfold on_join_room, run, try_catch, join_room_try, mbind, M_bind,
    Room_findOne, store_call. rewrite Hf. simpl.
  destruct (rooms w !! roomId) as [room|] eqn:Hroom.
  - rewrite bool_decide_eq_false_2 by (by apply Hnew).
    unfold Room_save, required, store_call, mret, M_ret, socket_join,
      socket_bind, Query_exec, store_call, socket_emit, emit_to.
    rewrite Hr. simpl.
    rewrite lookup_insert_eq, !lookup_alter_eq, Hs. done.
  - unfold Room_save, required, store_call, mret, M_ret, socket_join,
      socket_bind, Query_exec, store_call, socket_emit, emit_to.
    rewrite Hr. simpl.
    rewrite lookup_insert_eq, !lookup_alter_eq, Hs. done.
Qed.

Lemma join_room_fails_after_saving_witness :
  let w := step (Outage [false; false; true])
             (steps [ Connection 1; Connection 2; JoinRoom 10 1 "r1" "alice" ]
                initial) in
  let w' := on_join_room 20 2 "r1" "bob" w in
  participants <$> rooms w' !! "r1" = Some ["alice"; "bob"]%string
  /\ delivered w' 2 = [Error "Failed to join room"]
  /\ delivered w' 1 = delivered w 1.
Proof.
  intros w w'.
  destruct (join_room_fails_after_saving w 20 2
    {| sock_roomId := None; sock_username := None; sock_rooms := ∅ |}
    "r1" "bob" []) as (Hrooms & _ & _).
  - vm_compute. reflexivity.
  - discriminate.
  - intros room Hroom. vm_compute in Hroom. injection Hroom as <-.
    simpl. intros [=]%list_elem_of_singleton.
  - reflexivity.
  - split; [exact Hrooms|]. split; vm_compute; reflexivity.
Defined.

(** X17: the server never accepts a join-room with the empty roomId.  In
    every reachable world such a join changes no Room record, no Message
    and no connection, and what it emits is the error event to the caller. *)
Theorem join_room_rejects_empty_room_id
    (w : World) (now : Z) (sid : nat) (username : string) :
  reachable w ->
  let w' := on_join_room now sid "" username w in
  rooms w' = rooms w /\ messages w' = messages w /\ sockets w' = sockets w
  /\ outbox w' = outbox w ++ [ {| recipients := {[sid]};
                                  event := Error "Failed to join room" |} ].
Proof.
  intros Hw w'. subst w'.
  assert (rooms w !! ""%string = None) as Hnone.
  { apply reachable_wf in Hw as [Hrs _].
    destruct (rooms w !! ""%string) as [room|] eqn:Hroom; [|done].
    by destruct (Hrs _ _ Hroom) as [? _]. }
  unfold on_join_room, run, join_room_try.
  destruct (Room_findOne_cases "" w) as [fs [Hf|Hf]].
  - by rewrite (try_catch_bind_throw _ _ _ _ _ Hf).
  - rewrite (try_catch_bind_run _ _ _ _ _ _ Hf), Hnone.
    by rewrite (try_catch_bind_throw _ _ _ _ (set_faults fs w)).
Qed.

Lemma join_room_rejects_empty_room_id_witness :
  let w := steps [ Connection 1 ] initial in
  rooms (on_join_room 10 1 "" "alice" w) = rooms w
  /\ delivered (on_join_room 10 1 "" "alice" w) 1 = [Error "Failed to join room"].
Proof.
  intros w. split; [|vm_compute; reflexivity].
  apply (join_room_rejects_empty_room_id w 10 1 "alice").
  apply reachable_steps, reachable_initial.
Defined.
